(** * VehicleDetectionService: detection decoding, simulation and aggregation

    A shallow embedding of [services/VehicleDetectionService.ts].

    Conventions of the embedding.
    - A JavaScript [number] that holds a tensor value, a random draw or a
      coordinate is a rational ([Q]): every finite double is one.  [NaN]
      and the two infinities are kept as separate values, and reading a
      typed array out of range gives [None] ([undefined]).  The
      arithmetic of the decoder on box coordinates is that of IEEE-754
      binary64: the exact result, rounded to the nearest double, ties to
      even.  The sign of zero is not kept.  The arithmetic of the
      simulation generator on its random draws is exact.
    - Counters are unbounded naturals ([N]).
    - [Date.now()], [Math.random()] and [console] are effects: the state
      carries the sequence of clock readings, the sequence of random draws
      and the console output.
    - Objects that are shared by reference (the count object, arrays of
      detections and the detection objects themselves) live in a heap
      indexed by locations; an object literal, an array literal and a
      spread copy allocate a fresh location.
    - [async]/[await] is sequential composition; a rejected promise is a
      thrown exception. *)

From Stdlib Require Import QArith Qround Qabs Qpower Lqa.
From stdpp Require Import gmap strings list pretty.

Set Default Proof Using "Type".

(** ** Numbers *)

Module Num.

(** A JavaScript number as the decoder and the generator see it. *)
Inductive number :=
| Fin (q : Q)
| Inf (negative : bool)
| NaN.

(** [ToNumber] of a typed-array read: [undefined] becomes [NaN]. *)
Definition to_number (v : option Q) : number :=
  match v with
  | Some q => Fin q
  | None => NaN
  end.

(** The integer nearest to [q]; of two that are equally near, the even
    one. *)
Definition round_half_even (q : Q) : Z :=
  let n := Qfloor q in
  match (q - inject_Z n ?= 1 # 2)%Q with
  | Lt => n
  | Eq => if Z.even n then n else (n + 1)%Z
  | Gt => (n + 1)%Z
  end.

(** The exponent [e] with [2 ^ e <= |q| < 2 ^ (e + 1)], for [q] other
    than 0. *)
Definition binade (q : Q) : Z :=
  let e := (Z.log2 (Z.abs (Qnum q)) - Z.log2 (Zpos (Qden q)))%Z in
  if Qle_bool (2 ^ e) (Qabs q) then e else (e - 1)%Z.

(** Rounding to nearest, ties to even, into the binary format with
    [prec] significant bits whose least positive value is [2 ^ emin];
    the exponent is not bounded above.  The result is in lowest terms. *)
Definition round_to (prec emin : Z) (q : Q) : Q :=
  if Qeq_bool q 0 then 0
  else
    let u := Z.max (binade q - (prec - 1)) emin in
    Qred (inject_Z (round_half_even (q / 2 ^ u)) * 2 ^ u).

(** The double nearest to [q]: what the literal [q] denotes, and what a
    [Float64Array] holds for it. *)
Definition double (q : Q) : Q := round_to 53 (-1074) q.

(** [Math.fround(q)], what a [Float32Array] holds for [q]; every such
    value is a double. *)
Definition fround (q : Q) : Q := round_to 24 (-149) q.

(** The result of an arithmetic operation whose exact value is [q]: the
    nearest double, and an infinity from [2 ^ 1024] on. *)
Definition binary64 (q : Q) : number :=
  let r := double q in
  if Qle_bool (2 ^ 1024) (Qabs r) then Inf (negb (Qle_bool 0 r)) else Fin r.

(** [a * b] *)
Definition mul (a b : number) : number :=
  match a, b with
  | Fin p, Fin q => binary64 (p * q)
  | Fin p, Inf n | Inf n, Fin p =>
      if Qeq_bool p 0 then NaN else Inf (xorb n (negb (Qle_bool 0 p)))
  | Inf m, Inf n => Inf (xorb m n)
  | _, _ => NaN
  end.

(** [a - b] *)
Definition sub (a b : number) : number :=
  match a, b with
  | Fin p, Fin q => binary64 (p - q)
  | Fin _, Inf n => Inf (negb n)
  | Inf m, Fin _ => Inf m
  | Inf m, Inf n => if Bool.eqb m n then NaN else Inf m
  | _, _ => NaN
  end.

(** [a > b] on finite numbers. *)
Definition Qgtb (a b : Q) : bool := negb (Qle_bool a b).

(** [a < b] on finite numbers. *)
Definition Qltb (a b : Q) : bool := negb (Qle_bool b a).

(** Equality of numbers up to the representation of fractions. *)
Definition eqv (a b : number) : Prop :=
  match a, b with
  | Fin p, Fin q => (p == q)%Q
  | Inf m, Inf n => m = n
  | NaN, NaN => True
  | _, _ => False
  end.

(** The array slot named by a number used as a property key: only a
    non-negative integer names a slot. *)
Definition array_index (v : option Q) : option nat :=
  match v with
  | Some q =>
      if Qeq_bool (inject_Z (Qfloor q)) q && (0 <=? Qfloor q)%Z
      then Some (Z.to_nat (Qfloor q))
      else None
  | None => None
  end.

(** The number of passes of [for (let i = 0; i < bound; i++)]: an
    integer [i >= 0] is below [bound] exactly when it is below its
    ceiling; an [undefined] bound admits no pass. *)
Definition iterations (bound : option Q) : nat :=
  match bound with
  | Some k => Z.to_nat (Qceiling k)
  | None => 0
  end.

End Num.

Export Num.

(** ** Data model *)

Inductive VehicleType :=
| CAR | BUS | TRUCK | MOTORCYCLE | BICYCLE | VAN | UNKNOWN.

#[global] Instance VehicleType_eq_dec : EqDecision VehicleType.
Proof. solve_decision. Defined.

(** The string value of each member of the enum. *)
Definition VehicleType_value (t : VehicleType) : string :=
  match t with
  | CAR => "car"
  | BUS => "bus"
  | TRUCK => "truck"
  | MOTORCYCLE => "motorcycle"
  | BICYCLE => "bicycle"
  | VAN => "van"
  | UNKNOWN => "unknown"
  end.

(** [Object.values(VehicleType)], in declaration order. *)
Definition VehicleType_values : list VehicleType :=
  [CAR; BUS; TRUCK; MOTORCYCLE; BICYCLE; VAN; UNKNOWN].

Record BBox := mkBBox {
  x : number;
  y : number;
  width : number;
  height : number
}.

Record DetectedVehicle := mkDetectedVehicle {
  id : string;
  type : VehicleType;
  confidence : Q;
  bbox : BBox;
  licensePlate : option string;
  timestamp : Z
}.

Record VehicleCount := mkVehicleCount {
  car : N;
  bus : N;
  truck : N;
  motorcycle : N;
  bicycle : N;
  van : N;
  unknown : N;
  total : N
}.

(** The keys of a count object: one per category, and [total]. *)
Inductive CountKey :=
| KType (t : VehicleType)
| KTotal.

(** [Object.keys(count)], in the order of the object literal. *)
Definition VehicleCount_keys : list CountKey :=
  map KType VehicleType_values ++ [KTotal].

(** [count[key]] *)
Definition get_count (key : CountKey) (c : VehicleCount) : N :=
  match key with
  | KType CAR => car c
  | KType BUS => bus c
  | KType TRUCK => truck c
  | KType MOTORCYCLE => motorcycle c
  | KType BICYCLE => bicycle c
  | KType VAN => van c
  | KType UNKNOWN => unknown c
  | KTotal => total c
  end.

(** [count[key] = n] *)
Definition set_count (key : CountKey) (n : N) (c : VehicleCount) : VehicleCount :=
  match key with
  | KType CAR => mkVehicleCount n (bus c) (truck c) (motorcycle c) (bicycle c) (van c) (unknown c) (total c)
  | KType BUS => mkVehicleCount (car c) n (truck c) (motorcycle c) (bicycle c) (van c) (unknown c) (total c)
  | KType TRUCK => mkVehicleCount (car c) (bus c) n (motorcycle c) (bicycle c) (van c) (unknown c) (total c)
  | KType MOTORCYCLE => mkVehicleCount (car c) (bus c) (truck c) n (bicycle c) (van c) (unknown c) (total c)
  | KType BICYCLE => mkVehicleCount (car c) (bus c) (truck c) (motorcycle c) n (van c) (unknown c) (total c)
  | KType VAN => mkVehicleCount (car c) (bus c) (truck c) (motorcycle c) (bicycle c) n (unknown c) (total c)
  | KType UNKNOWN => mkVehicleCount (car c) (bus c) (truck c) (motorcycle c) (bicycle c) (van c) n (total c)
  | KTotal => mkVehicleCount (car c) (bus c) (truck c) (motorcycle c) (bicycle c) (van c) (unknown c) n
  end.

(** [count[key]++] *)
Definition incr (key : CountKey) (c : VehicleCount) : VehicleCount :=
  set_count key (get_count key c + 1) c.

(** The object literal that initialises [vehicleCount]; also what
    assigning 0 to every key of the object leaves. *)
Definition zero_count : VehicleCount := mkVehicleCount 0 0 0 0 0 0 0 0.

(** The sum of the per-category counts, over all seven categories. *)
Definition sum_counts (c : VehicleCount) : N :=
  foldr (fun t acc => (get_count (KType t) c + acc)%N) 0%N VehicleType_values.

(** ** The label tables *)

Definition COCO_CLASSES : list string :=
  [ "person"; "bicycle"; "car"; "motorcycle"; "airplane"; "bus"; "train"; "truck"; "boat";
    "traffic light"; "fire hydrant"; EmptyString; "stop sign"; "parking meter"; "bench"; "bird";
    "cat"; "dog"; "horse"; "sheep"; "cow"; "elephant"; "bear"; "zebra"; "giraffe";
    EmptyString; "backpack"; "umbrella"; EmptyString; EmptyString; "handbag"; "tie"; "suitcase"; "frisbee";
    "skis"; "snowboard"; "sports ball"; "kite"; "baseball bat"; "baseball glove";
    "skateboard"; "surfboard"; "tennis racket"; "bottle"; EmptyString; "wine glass"; "cup";
    "fork"; "knife"; "spoon"; "bowl"; "banana"; "apple"; "sandwich"; "orange";
    "broccoli"; "carrot"; "hot dog"; "pizza"; "donut"; "cake"; "chair"; "couch";
    "potted plant"; "bed"; EmptyString; "dining table"; EmptyString; EmptyString; "toilet"; EmptyString; "tv";
    "laptop"; "mouse"; "remote"; "keyboard"; "cell phone"; "microwave"; "oven";
    "toaster"; "sink"; "refrigerator"; EmptyString; "book"; "clock"; "vase"; "scissors";
    "teddy bear"; "hair drier"; "toothbrush" ].

Definition VEHICLE_CLASS_MAP_entries : list (string * VehicleType) :=
  [ ("bicycle", BICYCLE);
    ("car", CAR);
    ("motorcycle", MOTORCYCLE);
    ("bus", BUS);
    ("truck", TRUCK) ].

Definition VEHICLE_CLASS_MAP : gmap string VehicleType :=
  list_to_map VEHICLE_CLASS_MAP_entries.

(** [this.COCO_CLASSES[classIndex] || 'unknown']: a missing slot and the
    empty string are both falsy. *)
Definition class_name (classIndex : option Q) : string :=
  match array_index classIndex ≫= (fun i => COCO_CLASSES !! i) with
  | Some EmptyString => "unknown"
  | Some s => s
  | None => "unknown"
  end.

Definition confidenceThreshold : Q := 3 # 10.

(** ** The runtime: heap, clock, random source, console *)

Definition loc := positive.

(** A tensor is its flat data, as [tensor.data()] returns it. *)
Definition Tensor := list Q.

Inductive Outcome (A : Type) :=
| Ret (a : A)
| Throw (e : string).

Arguments Ret {A} a.
Arguments Throw {A} e.

(** A loaded graph model: inference either yields the output tensors or
    fails. *)
Record GraphModel := mkGraphModel {
  predict : Tensor -> Outcome (list Tensor)
}.

(** How the load of an image ends.  Either [new Image()] throws; or the
    element is built and the promise of its pixels settles: [onload]
    resolves it with the tensor [tf.browser.fromPixels] makes of the
    element, and [onerror], or a failure of [tf.browser.fromPixels],
    rejects it. *)
Inductive ImageLoad :=
| NoElement (e : string)
| Element (pixels : Outcome Tensor).

(** The TensorFlow.js runtime and the image source, as far as the service
    calls them. *)
Record TFRuntime := mkTFRuntime {
  ready : Outcome unit;
  loadGraphModel : string -> Outcome GraphModel;
  image : string -> ImageLoad;
  resizeBilinear : Tensor -> Z * Z -> Tensor
}.

(** [new Image()], for the image at [imageUri]. *)
Definition Image (tf : TFRuntime) (imageUri : string) : Outcome unit :=
  match image tf imageUri with
  | NoElement e => Throw e
  | Element _ => Ret tt
  end.

(** The tensor of the pixels of the image at [imageUri], or the failure
    that keeps the service from having it. *)
Definition fromPixels (tf : TFRuntime) (imageUri : string) : Outcome Tensor :=
  match image tf imageUri with
  | NoElement e => Throw e
  | Element pixels => pixels
  end.

Inductive obj :=
| OCount (c : VehicleCount)
| OArray (a : list loc)
| OVehicle (d : DetectedVehicle).

(** The fields of the service object, followed by the heap and the
    environment. *)
Record State := mkState {
  model : option GraphModel;
  detectedVehicles : loc;
  isModelLoaded : bool;
  vehicleCount : loc;
  heap : gmap loc obj;
  clock : nat -> Z;
  ticks : nat;
  entropy : nat -> Q;
  draws : nat;
  console : list string
}.

Definition set_model (m : option GraphModel) (s : State) : State :=
  mkState m (detectedVehicles s) (isModelLoaded s) (vehicleCount s) (heap s)
          (clock s) (ticks s) (entropy s) (draws s) (console s).

Definition set_detectedVehicles (l : loc) (s : State) : State :=
  mkState (model s) l (isModelLoaded s) (vehicleCount s) (heap s)
          (clock s) (ticks s) (entropy s) (draws s) (console s).

Definition set_isModelLoaded (b : bool) (s : State) : State :=
  mkState (model s) (detectedVehicles s) b (vehicleCount s) (heap s)
          (clock s) (ticks s) (entropy s) (draws s) (console s).

Definition set_heap (h : gmap loc obj) (s : State) : State :=
  mkState (model s) (detectedVehicles s) (isModelLoaded s) (vehicleCount s) h
          (clock s) (ticks s) (entropy s) (draws s) (console s).

Definition set_ticks (n : nat) (s : State) : State :=
  mkState (model s) (detectedVehicles s) (isModelLoaded s) (vehicleCount s) (heap s)
          (clock s) n (entropy s) (draws s) (console s).

Definition set_draws (n : nat) (s : State) : State :=
  mkState (model s) (detectedVehicles s) (isModelLoaded s) (vehicleCount s) (heap s)
          (clock s) (ticks s) (entropy s) n (console s).

Definition set_console (c : list string) (s : State) : State :=
  mkState (model s) (detectedVehicles s) (isModelLoaded s) (vehicleCount s) (heap s)
          (clock s) (ticks s) (entropy s) (draws s) c.

(** *** The monad of the service's methods *)

Definition M (A : Type) : Type := State -> Outcome A * State.

Definition ret {A} (a : A) : M A := fun s => (Ret a, s).

Definition bind {A B} (c : M A) (k : A -> M B) : M B :=
  fun s =>
    match c s with
    | (Ret a, s') => k a s'
    | (Throw e, s') => (Throw e, s')
    end.

Definition throw {A} (e : string) : M A := fun s => (Throw e, s).

(** [try { c } catch (error) { handler error }] *)
Definition try_catch {A} (c : M A) (handler : string -> M A) : M A :=
  fun s =>
    match c s with
    | (Ret a, s') => (Ret a, s')
    | (Throw e, s') => handler e s'
    end.

(** [await p], for an external promise that has settled as [o]. *)
Definition await {A} (o : Outcome A) : M A := fun s => (o, s).

(** A call of an external function that returns or throws as [o]. *)
Definition call {A} (o : Outcome A) : M A := fun s => (o, s).

Definition get : M State := fun s => (Ret s, s).

Declare Scope js_scope.
Delimit Scope js_scope with js.
Notation "'let*' x ':=' c 'in' k" := (bind c (fun x => k))
  (at level 10, x pattern, c at level 100, k at level 200) : js_scope.
Notation "c ';;' k" := (bind c (fun _ => k))
  (at level 100, k at level 200, right associativity) : js_scope.
Open Scope js_scope.

(** [Date.now()]: the next reading of the clock. *)
Definition Date_now : M Z :=
  fun s => (Ret (clock s (ticks s)), set_ticks (S (ticks s)) s).

(** [Math.random()]: the next draw. *)
Definition Math_random : M Q :=
  fun s => (Ret (entropy s (draws s)), set_draws (S (draws s)) s).

Definition console_log (msg : string) : M unit :=
  fun s => (Ret tt, set_console (console s ++ ["log: " +:+ msg]) s).

Definition console_error (msg : string) : M unit :=
  fun s => (Ret tt, set_console (console s ++ ["error: " +:+ msg]) s).

(** A new object: a fresh location of the heap. *)
Definition alloc (o : obj) : M loc :=
  fun s =>
    let l := fresh (dom (heap s)) in
    (Ret l, set_heap (<[l := o]> (heap s)) s).

Definition load (l : loc) : M obj :=
  fun s =>
    match heap s !! l with
    | Some o => (Ret o, s)
    | None => (Throw "TypeError", s)
    end.

Definition store (l : loc) (o : obj) : M unit :=
  fun s => (Ret tt, set_heap (<[l := o]> (heap s)) s).

Definition load_count (l : loc) : M VehicleCount :=
  let* o := load l in
  match o with
  | OCount c => ret c
  | _ => throw "TypeError"
  end.

Definition load_array (l : loc) : M (list loc) :=
  let* o := load l in
  match o with
  | OArray a => ret a
  | _ => throw "TypeError"
  end.

Definition load_vehicle (l : loc) : M DetectedVehicle :=
  let* o := load l in
  match o with
  | OVehicle d => ret d
  | _ => throw "TypeError"
  end.

(** [for (const v of l) body(v)], also [l.forEach(body)]. *)
Fixpoint for_each {A} (l : list A) (body : A -> M unit) : M unit :=
  match l with
  | [] => ret tt
  | v :: l' => body v;; for_each l' body
  end.

(** The objects of a list of freshly built detections, in order. *)
Fixpoint alloc_vehicles (ds : list DetectedVehicle) : M (list loc) :=
  match ds with
  | [] => ret []
  | d :: ds' =>
      let* l := alloc (OVehicle d) in
      let* ls := alloc_vehicles ds' in
      ret (l :: ls)
  end.

(** The array a producer hands to its caller: the producers below build
    their result as a list of records; it becomes an array of objects
    here. *)
Definition new_array (ds : list DetectedVehicle) : M loc :=
  let* ls := alloc_vehicles ds in
  alloc (OArray ls).

(** ** The service *)

Definition this_model : M (option GraphModel) := fun s => (Ret (model s), s).
Definition this_detectedVehicles : M loc := fun s => (Ret (detectedVehicles s), s).
Definition this_isModelLoaded : M bool := fun s => (Ret (isModelLoaded s), s).
Definition this_vehicleCount : M loc := fun s => (Ret (vehicleCount s), s).

Definition assign_model (m : option GraphModel) : M unit :=
  fun s => (Ret tt, set_model m s).
Definition assign_detectedVehicles (l : loc) : M unit :=
  fun s => (Ret tt, set_detectedVehicles l s).
Definition assign_isModelLoaded (b : bool) : M unit :=
  fun s => (Ret tt, set_isModelLoaded b s).

(** The state [new VehicleDetectionService()] leaves, in a world with the
    given clock and random source: the field initialisers allocate the
    history array and the count object. *)
Definition new_service (clk : nat -> Z) (rnd : nat -> Q) : State :=
  mkState None 1%positive false 2%positive
          (<[2%positive := OCount zero_count]> (<[1%positive := OArray []]> ∅))
          clk 0 rnd 0 [].

Definition MODEL_URL : string :=
  "https://tfhub.dev/tensorflow/tfjs-model/ssd_mobilenet_v2/1/default/1".

Definition initialize (tf : TFRuntime) : M unit :=
  try_catch
    (await (ready tf);;
     console_log "TensorFlow.js ready";;
     console_log "Loading vehicle detection model...";;
     let* m := await (loadGraphModel tf MODEL_URL) in
     assign_model (Some m);;
     assign_isModelLoaded true;;
     console_log "Vehicle detection model loaded successfully")
    (fun error =>
       console_error ("Failed to initialize TensorFlow: " +:+ error);;
       console_log "Falling back to simulation mode";;
       assign_isModelLoaded false).

(** [s.charAt(i)]: the empty string when [i] is out of range. *)
Definition charAt (s : string) (i : Z) : string :=
  if (i <? 0)%Z then EmptyString else String.substring (Z.to_nat i) 1 s.

(** [for (let i = 0; i < n; i++) plate += alphabet.charAt(floor(random * alphabet.length))] *)
Fixpoint pick_chars (alphabet : string) (n : nat) (plate : string) : M string :=
  match n with
  | O => ret plate
  | S n' =>
      let* r := Math_random in
      pick_chars alphabet n'
        (plate +:+ charAt alphabet (Qfloor (r * inject_Z (Z.of_nat (String.length alphabet)))))
  end.

Definition generateLicensePlate : M string :=
  let letters := "ABCDEFGHIJKLMNOPQRSTUVWXYZ" in
  let numbers := "0123456789" in
  let* plate := pick_chars letters 3 EmptyString in
  pick_chars numbers 4 plate.

(** [`vehicle_${now}_${i}`] *)
Definition vehicle_id (now : Z) (i : nat) : string :=
  "vehicle_" +:+ pretty now +:+ "_" +:+ pretty i.

(** [predictions[k].data()]: a missing tensor is [undefined], and calling
    a method on it throws. *)
Definition tensor_data (predictions : list Tensor) (k : nat) : M Tensor :=
  match predictions !! k with
  | Some t => ret t
  | None => throw "TypeError"
  end.

(** The bounding box of entry [i], in pixels of the 320x320 frame. *)
Definition pixel_bbox (boxes : Tensor) (i : nat) : BBox :=
  {| x := mul (to_number (boxes !! (i * 4 + 1))) (Fin 320);
     y := mul (to_number (boxes !! (i * 4))) (Fin 320);
     width := mul (sub (to_number (boxes !! (i * 4 + 3))) (to_number (boxes !! (i * 4 + 1)))) (Fin 320);
     height := mul (sub (to_number (boxes !! (i * 4 + 2))) (to_number (boxes !! (i * 4)))) (Fin 320) |}.

(** The loop of [postProcessDetections]: [n] passes remain, [i] is the
    loop variable and [detections] the array built so far. *)
Fixpoint decode_loop (boxes classes scores : Tensor) (n i : nat)
    (detections : list DetectedVehicle) : M (list DetectedVehicle) :=
  match n with
  | O => ret detections
  | S n' =>
      let score := scores !! i in
      let classIndex := classes !! i in
      let className := class_name classIndex in
      match score, VEHICLE_CLASS_MAP !! className with
      | Some sc, Some ty =>
          if Qgtb sc confidenceThreshold then
            let* now := Date_now in
            let* plate := generateLicensePlate in
            let* stamp := Date_now in
            let detection :=
              {| id := vehicle_id now i;
                 type := ty;
                 confidence := sc;
                 bbox := pixel_bbox boxes i;
                 licensePlate := Some plate;
                 timestamp := stamp |} in
            decode_loop boxes classes scores n' (S i) (detections ++ [detection])
          else decode_loop boxes classes scores n' (S i) detections
      | _, _ => decode_loop boxes classes scores n' (S i) detections
      end
  end.

Definition postProcessDetections (predictions : list Tensor) : M (list DetectedVehicle) :=
  try_catch
    (let* boxes := tensor_data predictions 0 in
     let* classes := tensor_data predictions 1 in
     let* scores := tensor_data predictions 2 in
     let* numDetections := tensor_data predictions 3 in
     let maxDetections := numDetections !! 0 in
     decode_loop boxes classes scores (iterations maxDetections) 0 [])
    (fun error =>
       console_error ("Post-processing failed: " +:+ error);;
       ret []).

(** [loadImage].  The [try] block builds the image element and returns
    the promise of its pixels without awaiting it: an exception of
    [new Image()] is caught, logged and thrown again, while a rejection
    of the promise passes the [catch] by and reaches the caller's
    [await]. *)
Definition loadImage (tf : TFRuntime) (imageUri : string) : M Tensor :=
  let* promise :=
    try_catch
      (call (Image tf imageUri);;
       ret (fromPixels tf imageUri))
      (fun error =>
         console_error ("Failed to load image: " +:+ error);;
         throw error) in
  await promise.

(** [preprocessImage]: resize to 320x320, divide by 255; the batch
    dimension does not change the flat data. *)
Definition preprocessImage (tf : TFRuntime) (img : Tensor) : Tensor :=
  let resized := resizeBilinear tf img (320%Z, 320%Z) in
  let normalized := map (fun v => (v / 255)%Q) resized in
  normalized.

Definition runRealDetection (tf : TFRuntime) (imageUri : string) : M (list DetectedVehicle) :=
  try_catch
    (let* img := loadImage tf imageUri in
     let preprocessed := preprocessImage tf img in
     let* m := this_model in
     let* predictions :=
       match m with
       | Some gm => await (predict gm preprocessed)
       | None => throw "TypeError"
       end in
     let* detections := postProcessDetections predictions in
     ret detections)
    (fun error =>
       console_error ("Real detection failed: " +:+ error);;
       ret []).

(** [array[i]] for a computed integer index. *)
Definition at_Z {A} (l : list A) (i : Z) : option A :=
  if (i <? 0)%Z then None else l !! Z.to_nat i.

(** [Object.values(VehicleType).filter(type => type !== VehicleType.UNKNOWN)] *)
Definition vehicleTypes : list VehicleType :=
  filter (fun t => t <> UNKNOWN) VehicleType_values.

(** The loop of [simulateDetection].  The slot read from [vehicleTypes]
    exists for every draw in [0, 1); [UNKNOWN] stands for the
    [undefined] of a draw outside it. *)
Fixpoint simulate_loop (n i : nat) (detections : list DetectedVehicle)
    : M (list DetectedVehicle) :=
  match n with
  | O => ret detections
  | S n' =>
      let* r := Math_random in
      let randomType :=
        default UNKNOWN
          (at_Z vehicleTypes (Qfloor (r * inject_Z (Z.of_nat (length vehicleTypes))))) in
      let* now := Date_now in
      let* rc := Math_random in
      let* rx := Math_random in
      let* ry := Math_random in
      let* rw := Math_random in
      let* rh := Math_random in
      let* plate := generateLicensePlate in
      let* stamp := Date_now in
      let detection :=
        {| id := vehicle_id now i;
           type := randomType;
           confidence := (7 # 10) + rc * (3 # 10);
           bbox := {| x := Fin (rx * 300);
                      y := Fin (ry * 300);
                      width := Fin (50 + rw * 100);
                      height := Fin (30 + rh * 80) |};
           licensePlate := Some plate;
           timestamp := stamp |} in
      simulate_loop n' (S i) (detections ++ [detection])
  end.

Definition simulateDetection : M (list DetectedVehicle) :=
  let* r := Math_random in
  if Qltb r (3 # 10) then ret []
  else
    let* r' := Math_random in
    let numDetections := (Qfloor (r' * 3) + 1)%Z in
    simulate_loop (Z.to_nat numDetections) 0 [].

(** The callback of [updateVehicleCounts]:
    [this.vehicleCount[detection.type]++; this.vehicleCount.total++]. *)
Definition count_detection (d : loc) : M unit :=
  let* detection := load_vehicle d in
  let* vc := this_vehicleCount in
  let* c := load_count vc in
  store vc (OCount (incr (KType (type detection)) c));;
  let* vc' := this_vehicleCount in
  let* c' := load_count vc' in
  store vc' (OCount (incr KTotal c')).

Definition updateVehicleCounts (detections : loc) : M unit :=
  let* ds := load_array detections in
  for_each ds count_detection.

(** [this.detectedVehicles.push(...detections)] *)
Definition push_all (detections : loc) : M unit :=
  let* items := load_array detections in
  let* dv := this_detectedVehicles in
  let* arr := load_array dv in
  store dv (OArray (arr ++ items)).

Definition detectVehicles (tf : TFRuntime) (imageUri : string) : M loc :=
  try_catch
    (let* loaded := this_isModelLoaded in
     let* m := this_model in
     if loaded && bool_decide (is_Some m) then
       let* ds := runRealDetection tf imageUri in
       let* detections := new_array ds in
       updateVehicleCounts detections;;
       push_all detections;;
       ret detections
     else
       console_log "Using simulation mode - model not loaded";;
       let* ds := simulateDetection in
       let* simulatedDetections := new_array ds in
       updateVehicleCounts simulatedDetections;;
       push_all simulatedDetections;;
       ret simulatedDetections)
    (fun error =>
       console_error ("Vehicle detection failed: " +:+ error);;
       throw error).

(** [{ ...this.vehicleCount }] *)
Definition getVehicleCount : M loc :=
  let* vc := this_vehicleCount in
  let* c := load_count vc in
  alloc (OCount c).

(** [[...this.detectedVehicles]] *)
Definition getDetectedVehicles : M loc :=
  let* dv := this_detectedVehicles in
  let* arr := load_array dv in
  alloc (OArray arr).

Definition isRealModelLoaded : M bool := this_isModelLoaded.

(** The callback of [resetCounts]: [this.vehicleCount[key] = 0]. *)
Definition clear_key (key : CountKey) : M unit :=
  let* vc := this_vehicleCount in
  let* c := load_count vc in
  store vc (OCount (set_count key 0 c)).

(** [Object.keys] reads the count object, the callback clears each of
    its keys, and the history field is pointed at a new empty array. *)
Definition resetCounts : M unit :=
  let* vc := this_vehicleCount in
  let* _ := load_count vc in
  for_each VehicleCount_keys clear_key;;
  let* fresh_array := alloc (OArray []) in
  assign_detectedVehicles fresh_array.

Definition processVideoFrame : M loc :=
  let* ds := simulateDetection in
  new_array ds.

(** ** Observations and specification vocabulary *)

(** What a caller reads after [getVehicleCount()]: the content of the
    object it was handed. *)
Definition snapshot (s : State) : option VehicleCount :=
  match getVehicleCount s with
  | (Ret l, s') =>
      match heap s' !! l with
      | Some (OCount c) => Some c
      | _ => None
      end
  | (Throw _, _) => None
  end.

(** The detection stored in a heap cell, if it holds one. *)
Definition vehicle_of (o : option obj) : option DetectedVehicle :=
  match o with
  | Some (OVehicle d) => Some d
  | _ => None
  end.

(** The detections behind a list of references. *)
Definition vehicles_at (h : gmap loc obj) (ls : list loc) : option (list DetectedVehicle) :=
  mapM (fun l => vehicle_of (h !! l)) ls.

(** What a caller reads after [getDetectedVehicles()]: the detections in
    the array it was handed, in order. *)
Definition history (s : State) : option (list DetectedVehicle) :=
  match getDetectedVehicles s with
  | (Ret l, s') =>
      match heap s' !! l with
      | Some (OArray a) => vehicles_at (heap s') a
      | _ => None
      end
  | (Throw _, _) => None
  end.

(** A write by the caller to the object at [l]: its whole content is
    replaced, which covers every assignment to a property, a slot or the
    length. *)
Definition caller_write (l : loc) (o : obj) (s : State) : State :=
  set_heap (<[l := o]> (heap s)) s.

(** The private fields hold what their declarations say: a count object,
    and an array whose slots refer to detections. *)
Definition well_typed (s : State) : Prop :=
  (exists c, heap s !! vehicleCount s = Some (OCount c)) /\
  (exists a ds, heap s !! detectedVehicles s = Some (OArray a) /\
                vehicles_at (heap s) a = Some ds).

(** The count object is consistent: [total] is the sum of the categories. *)
Definition consistent (s : State) : Prop :=
  (exists c, heap s !! vehicleCount s = Some (OCount c) /\ total c = sum_counts c) /\
  (exists a ds, heap s !! detectedVehicles s = Some (OArray a) /\
                vehicles_at (heap s) a = Some ds).

(** The counts after [updateVehicleCounts] has gone through [ds]. *)
Definition tally (ds : list DetectedVehicle) (c : VehicleCount) : VehicleCount :=
  foldl (fun acc d => incr KTotal (incr (KType (type d)) acc)) c ds.

(** Two states that differ at most in clock position, draw position and
    console. *)
Definition same_store (s s' : State) : Prop :=
  model s' = model s /\
  detectedVehicles s' = detectedVehicles s /\
  isModelLoaded s' = isModelLoaded s /\
  vehicleCount s' = vehicleCount s /\
  heap s' = heap s /\
  clock s' = clock s /\
  entropy s' = entropy s.

(** The calls a client makes on the service. *)
Inductive Call :=
| CInitialize (tf : TFRuntime)
| CDetectVehicles (tf : TFRuntime) (imageUri : string)
| CResetCounts
| CProcessVideoFrame.

(** One call; the client catches whatever is thrown. *)
Definition perform (c : Call) (s : State) : State :=
  match c with
  | CInitialize tf => snd (initialize tf s)
  | CDetectVehicles tf imageUri => snd (detectVehicles tf imageUri s)
  | CResetCounts => snd (resetCounts s)
  | CProcessVideoFrame => snd (processVideoFrame s)
  end.

(** A session: the calls in order, from a given state. *)
Definition session (cs : list Call) (s : State) : State :=
  foldl (fun st c => perform c st) s cs.

(** Entry [i] passes the filter of the decoder. *)
Definition accepted (classes scores : Tensor) (i : nat) : bool :=
  match scores !! i, VEHICLE_CLASS_MAP !! class_name (classes !! i) with
  | Some sc, Some _ => Qgtb sc confidenceThreshold
  | _, _ => false
  end.

(** Detection [d] is what the decoder emits for entry [i]. *)
Definition decoded_entry (boxes classes scores : Tensor) (i : nat) (d : DetectedVehicle) : Prop :=
  scores !! i = Some (confidence d) /\
  VEHICLE_CLASS_MAP !! class_name (classes !! i) = Some (type d) /\
  bbox d = pixel_bbox boxes i /\
  exists now, id d = vehicle_id now i.

(** The shape the decoder expects: boxes N x 4, classes N, scores N and
    one count. *)
Definition well_formed (predictions : list Tensor) : bool :=
  match predictions with
  | [boxes; classes; scores; numDetections] =>
      (length boxes =? 4 * length classes) &&
      (length scores =? length classes) &&
      (length numDetections =? 1)
  | _ => false
  end.

(** The contract of [Math.random()]: every draw lies in [0, 1). *)
Definition unit_draws (rnd : nat -> Q) : Prop :=
  forall n, (0 <= rnd n /\ rnd n < 1)%Q.

(** Detection [d] is what the generator builds from the six draws that
    start at position [j]; [i] is the loop variable. *)
Definition simulated_entry (rnd : nat -> Q) (j i : nat) (d : DetectedVehicle) : Prop :=
  at_Z vehicleTypes (Qfloor (rnd j * 6)) = Some (type d) /\
  confidence d = ((7 # 10) + rnd (j + 1)%nat * (3 # 10))%Q /\
  bbox d = {| x := Fin (rnd (j + 2)%nat * 300);
              y := Fin (rnd (j + 3)%nat * 300);
              width := Fin (50 + rnd (j + 4)%nat * 100);
              height := Fin (30 + rnd (j + 5)%nat * 80) |} /\
  exists now, id d = vehicle_id now i.

(** The intervals of a simulated detection. *)
Definition simulated_bounds (d : DetectedVehicle) : Prop :=
  exists bx by_ bw bh,
    bbox d = {| x := Fin bx; y := Fin by_; width := Fin bw; height := Fin bh |} /\
    (7 # 10 <= confidence d /\ confidence d < 1)%Q /\
    (0 <= bx /\ bx < 300)%Q /\
    (0 <= by_ /\ by_ < 300)%Q /\
    (50 <= bw /\ bw < 150)%Q /\
    (30 <= bh /\ bh < 110)%Q.

(** Equality of bounding boxes up to the representation of fractions. *)
Definition bbox_eqv (a b : BBox) : Prop :=
  eqv (x a) (x b) /\ eqv (y a) (y b) /\
  eqv (width a) (width b) /\ eqv (height a) (height b).

(** The five categories in the range of [VEHICLE_CLASS_MAP]. *)
Definition mapped_types : list VehicleType :=
  [BICYCLE; CAR; MOTORCYCLE; BUS; TRUCK].

(** The branch of [detectVehicles] taken when no model is loaded. *)
Definition simulation_path : M loc :=
  try_catch
    (console_log "Using simulation mode - model not loaded";;
     let* ds := simulateDetection in
     let* simulatedDetections := new_array ds in
     updateVehicleCounts simulatedDetections;;
     push_all simulatedDetections;;
     ret simulatedDetections)
    (fun error =>
       console_error ("Vehicle detection failed: " +:+ error);;
       throw error).

(** What [loadImage] writes to the console when the image at [imageUri]
    cannot be had: a line of its own if [new Image()] throws, nothing if
    the promise is rejected. *)
Definition load_failure_log (tf : TFRuntime) (imageUri : string) : list string :=
  match image tf imageUri with
  | NoElement e => ["error: Failed to load image: " +:+ e]
  | Element _ => []
  end.

(** Model acquisition as [initialize] performs it: the runtime becomes
    ready, then the graph model is fetched. *)
Definition acquire (tf : TFRuntime) : Outcome GraphModel :=
  match ready tf with
  | Ret _ => loadGraphModel tf MODEL_URL
  | Throw e => Throw e
  end.

(** ** Example inputs *)

(** A service that has just been constructed; clock and random source
    are constant. *)
Definition idle_service : State :=
  new_service (fun _ => 0%Z) (fun _ => 0%Q).

(** A random source whose first draw passes the 30% gate, whose second
    draw asks for one detection, and whose later draws are all [c]. *)
Definition draws_for (c : Q) : nat -> Q :=
  fun n =>
    match n with
    | O => (1 # 2)%Q
    | S O => 0%Q
    | _ => c
    end.

(** The box row [[0.1, 0.2, 0.5, 0.6]] as an array of doubles holds it. *)
Definition example_row : Tensor :=
  map double [1 # 10; 2 # 10; 5 # 10; 6 # 10]%Q.

(** The same row as a [Float32Array] holds it. *)
Definition example_row_float32 : Tensor :=
  map fround [1 # 10; 2 # 10; 5 # 10; 6 # 10]%Q.

(** A runtime without a usable model. *)
Definition offline_runtime : TFRuntime :=
  mkTFRuntime (Throw "network") (fun _ => Throw "network")
              (fun _ => Element (Throw "no image")) (fun img _ => img).

(** A service in a world whose clock stands at one millisecond for the
    whole session. *)
Definition same_millisecond_service : State :=
  new_service (fun _ => 1700000000000%Z) (draws_for (1 # 2)).

(** The service after one detection cycle without a model. *)
Definition recorded_once : State :=
  session [CDetectVehicles offline_runtime "frame.jpg"] same_millisecond_service.

(** [detection.confidence = q] *)
Definition with_confidence (q : Q) (d : DetectedVehicle) : DetectedVehicle :=
  {| id := id d;
     type := type d;
     confidence := q;
     bbox := bbox d;
     licensePlate := licensePlate d;
     timestamp := timestamp d |}.


(** [array[i].confidence = q], by a caller that holds the object at [e]. *)
Definition assign_confidence (e : loc) (q : Q) (s : State) : State :=
  match heap s !! e with
  | Some (OVehicle d) => caller_write e (OVehicle (with_confidence q d)) s
  | _ => s
  end.

(** The state after a caller has fetched the history of [recorded_once]. *)
Definition history_fetched : State :=
  snd (getDetectedVehicles recorded_once).

(** ** Accounting *)

(** The number of detections of category [t] in a list. *)
Definition count_type (t : VehicleType) (ds : list DetectedVehicle) : N :=
  N.of_nat (length (filter (fun d => type d = t) ds)).

(** The counts agree with the history: they are what counting the
    recorded detections from zero gives. *)
Definition accounted (s : State) : Prop :=
  exists c a ds,
    heap s !! vehicleCount s = Some (OCount c) /\
    heap s !! detectedVehicles s = Some (OArray a) /\
    vehicles_at (heap s) a = Some ds /\
    c = tally ds zero_count.

(** What a caller reads in an array it holds: the detections its slots
    refer to. *)
Definition read_array (s : State) (l : loc) : option (list DetectedVehicle) :=
  match heap s !! l with
  | Some (OArray a) => vehicles_at (heap s) a
  | _ => None
  end.

(** The tail both branches of [detectVehicles] share: the batch becomes
    the array that is returned, is counted and is appended to the
    history. *)
Definition record_batch (ds : list DetectedVehicle) : M loc :=
  let* detections := new_array ds in
  updateVehicleCounts detections;;
  push_all detections;;
  ret detections.

(** ** Labels *)

(** The category of the label in slot [n] of [COCO_CLASSES], read
    through [VEHICLE_CLASS_MAP]. *)
Definition slot_category (n : nat) : option VehicleType :=
  match n with
  | 1 => Some BICYCLE
  | 2 => Some CAR
  | 3 => Some MOTORCYCLE
  | 5 => Some BUS
  | 7 => Some TRUCK
  | _ => None
  end.

(** ** Identifiers *)

(** The character [_]. *)
Definition underscore : Ascii.ascii :=
  Ascii.Ascii true true true true true false true false.

(** The string has no underscore. *)
Fixpoint no_underscore (s : string) : Prop :=
  match s with
  | EmptyString => True
  | String c s' => c <> underscore /\ no_underscore s'
  end.

(** ** License plates *)

Definition is_upper (c : Ascii.ascii) : bool :=
  (65 <=? Ascii.nat_of_ascii c) && (Ascii.nat_of_ascii c <=? 90).

Definition is_digit (c : Ascii.ascii) : bool :=
  (48 <=? Ascii.nat_of_ascii c) && (Ascii.nat_of_ascii c <=? 57).

(** Three capital letters followed by four digits. *)
Definition plate_shape (p : string) : bool :=
  match String.list_ascii_of_string p with
  | [a; b; c; d; e; f; g] =>
      is_upper a && is_upper b && is_upper c &&
      is_digit d && is_digit e && is_digit f && is_digit g
  | _ => false
  end.

(** The detection carries a plate of that shape. *)
Definition has_plate (d : DetectedVehicle) : Prop :=
  exists p, licensePlate d = Some p /\ plate_shape p = true.

(** ** The statistics view ([components/VehicleStats.tsx]) and the
    camera overlay ([components/VehicleDetectionCamera.tsx]) *)

(** The property name of a key of the count object. *)
Definition key_name (k : CountKey) : string :=
  match k with
  | KType t => VehicleType_value t
  | KTotal => "total"
  end.

(** [Object.entries(vehicleCount)] *)
Definition entries (c : VehicleCount) : list (string * N) :=
  map (fun k => (key_name k, get_count k c)) VehicleCount_keys.

(** [.sort(([, a], [, b]) => b - a)]: descending by count.  The sort of
    an array is stable; it is written here as an insertion sort, which
    puts an entry before the first entry that does not exceed it. *)
Fixpoint insert_desc (e : string * N) (l : list (string * N)) : list (string * N) :=
  match l with
  | [] => [e]
  | e' :: l' =>
      if (snd e' <=? snd e)%N then e :: e' :: l' else e' :: insert_desc e l'
  end.

Definition sort_desc (l : list (string * N)) : list (string * N) :=
  foldr insert_desc [] l.

(** The first entry of the list has the largest count. *)
Definition head_largest (l : list (string * N)) : Prop :=
  match l with
  | [] => True
  | e :: _ => forall e', e' ∈ l -> (snd e' <= snd e)%N
  end.

(** [toUpperCase] on the letters of the ASCII alphabet. *)
Definition upper_char (c : Ascii.ascii) : Ascii.ascii :=
  if (97 <=? Ascii.nat_of_ascii c) && (Ascii.nat_of_ascii c <=? 122)
  then Ascii.ascii_of_nat (Ascii.nat_of_ascii c - 32)
  else c.

Fixpoint toUpperCase (s : string) : string :=
  match s with
  | EmptyString => EmptyString
  | String c s' => String (upper_char c) (toUpperCase s')
  end.

(** The text after "Most Common Vehicle:":
    [Object.entries(vehicleCount)
       .filter(([key]) => key !== 'total' && key !== VehicleType.UNKNOWN)
       .sort(([, a], [, b]) => b - a)[0]?.[0]?.toUpperCase() || 'N/A'] *)
Definition mostCommonVehicle (c : VehicleCount) : string :=
  match sort_desc (filter (fun e => fst e <> "total" /\ fst e <> "unknown") (entries c)) with
  | e :: _ =>
      match toUpperCase (fst e) with
      | EmptyString => "N/A"
      | u => u
      end
  | [] => "N/A"
  end.

(** [Math.round]: the nearest integer, halves upwards. *)
Definition Math_round (q : Q) : Z := Qfloor (q + (1 # 2)).

(** [Math.round(detection.confidence * 100)], shown as a percentage. *)
Definition confidence_percent (d : DetectedVehicle) : Z :=
  Math_round (confidence d * 100).

(** [array.slice(-n)] for a positive [n]: the last [n] elements, or the
    whole array when it is shorter. *)
Definition slice_last {A} (n : nat) (l : list A) : list A :=
  drop (length l - n) l.

(** [updateStats]: what the view keeps as [recentDetections],
    [getDetectedVehicles().slice(-10)]. *)
Definition recentDetections (s : State) : option (list DetectedVehicle) :=
  slice_last 10 <$> history s.

(** ** Example inputs for the real path *)

(** A model output with one car of score 0.9. *)
Definition single_car_output : list Tensor :=
  [[1 # 10; 2 # 10; 5 # 10; 6 # 10]; [2]; [9 # 10]; [1]]%Q.

(** A model that finds that car in every frame. *)
Definition car_model : GraphModel :=
  mkGraphModel (fun _ => Ret single_car_output).

(** A runtime that is ready, delivers [car_model] and reads every image. *)
Definition camera_runtime : TFRuntime :=
  mkTFRuntime (Ret tt) (fun _ => Ret car_model)
              (fun _ => Element (Ret [0; 255]%Q)) (fun img _ => img).

(** A runtime in which there is no [Image] constructor. *)
Definition headless_runtime : TFRuntime :=
  mkTFRuntime (Ret tt) (fun _ => Ret car_model)
              (fun _ => NoElement "ReferenceError") (fun img _ => img).

(** The service after a successful initialisation. *)
Definition ready_service : State :=
  snd (initialize camera_runtime same_millisecond_service).

(** What the decoder makes of [single_car_output] in [ready_service]. *)
Definition car_batch : list DetectedVehicle :=
  match fst (postProcessDetections single_car_output ready_service) with
  | Ret ds => ds
  | Throw _ => []
  end.

(** * Properties *)

(** ** The monad *)

Lemma bind_ret {A B} (c : M A) (k : A -> M B) s a s' :
  c s = (Ret a, s') -> bind c k s = k a s'.
Proof. intros H. unfold bind. by rewrite H. Qed.

(** Step over a call whose run [H] is known. *)
Tactic Notation "bind_with" uconstr(H) := rewrite (bind_ret _ _ _ _ _ H).

Lemma bind_throw {A B} (c : M A) (k : A -> M B) s e s' :
  c s = (Throw e, s') -> bind c k s = (Throw e, s').
Proof. intros H. unfold bind. by rewrite H. Qed.

Lemma try_catch_ret {A} (c : M A) h s a s' :
  c s = (Ret a, s') -> try_catch c h s = (Ret a, s').
Proof. intros H. unfold try_catch. by rewrite H. Qed.

Lemma try_catch_throw {A} (c : M A) h s e s' :
  c s = (Throw e, s') -> try_catch c h s = h e s'.
Proof. intros H. unfold try_catch. by rewrite H. Qed.

(** ** States that share their store *)

Lemma same_store_refl s : same_store s s.
Proof. by repeat split. Qed.

Lemma same_store_trans s1 s2 s3 :
  same_store s1 s2 -> same_store s2 s3 -> same_store s1 s3.
Proof.
  unfold same_store. intros (?&?&?&?&?&?&?) (?&?&?&?&?&?&?).
  repeat split; congruence.
Qed.

Lemma same_store_ticks n s : same_store s (set_ticks n s).
Proof. by repeat split. Qed.

Lemma same_store_draws n s : same_store s (set_draws n s).
Proof. by repeat split. Qed.

Lemma same_store_console c s : same_store s (set_console c s).
Proof. by repeat split. Qed.

Create HintDb store.

#[local] Hint Resolve same_store_refl same_store_ticks same_store_draws
  same_store_console : store.

(** ** License plates *)

Lemma set_draws_twice a b s : set_draws a (set_draws b s) = set_draws a s.
Proof. by destruct s. Qed.

Lemma pick_chars_runs alphabet n : forall plate s,
  exists plate', pick_chars alphabet n plate s = (Ret plate', set_draws (n + draws s) s).
Proof.
  induction n as [|n IH]; intros plate s; simpl.
  - exists plate. by destruct s.
  - unfold bind at 1, Math_random at 1.
    edestruct IH as [p' Hp']. rewrite Hp'. exists p'.
    rewrite set_draws_twice. do 2 f_equal. destruct s; simpl. lia.
Qed.

Lemma generateLicensePlate_runs s :
  exists plate, generateLicensePlate s = (Ret plate, set_draws (7 + draws s) s).
Proof.
  unfold generateLicensePlate.
  destruct (pick_chars_runs "ABCDEFGHIJKLMNOPQRSTUVWXYZ" 3 EmptyString s) as [p1 H1].
  destruct (pick_chars_runs "0123456789" 4 p1 (set_draws (3 + draws s) s)) as [p2 H2].
  exists p2. rewrite (bind_ret _ _ _ _ _ H1), H2, set_draws_twice.
  do 2 f_equal.
Qed.

(** ** The decoder *)

Section DecodeLoop.

Variables boxes classes scores : Tensor.

Lemma accepted_inv i :
  accepted classes scores i = true ->
  exists sc ty,
    scores !! i = Some sc /\
    VEHICLE_CLASS_MAP !! class_name (classes !! i) = Some ty /\
    Qgtb sc confidenceThreshold = true.
Proof.
  unfold accepted. intros H.
  destruct (scores !! i) as [sc|]; [|done].
  destruct (VEHICLE_CLASS_MAP !! class_name (classes !! i)) as [ty|]; [|done].
  by exists sc, ty.
Qed.

(** The loop emits, in index order, one detection for every accepted
    entry it visits and nothing else; it leaves the store and the console
    alone. *)
Lemma decode_loop_spec n : forall i acc s,
  exists out s',
    decode_loop boxes classes scores n i acc s = (Ret (acc ++ out), s') /\
    same_store s s' /\
    console s' = console s /\
    Forall2 (decoded_entry boxes classes scores)
            (List.filter (accepted classes scores) (seq i n)) out.
Proof.
  induction n as [|n IH]; intros i acc s.
  - exists [], s. simpl. rewrite app_nil_r. auto with store.
  - cbn [decode_loop seq List.filter]. unfold accepted at 1.
    destruct (scores !! i) as [sc|] eqn:Hsc; cycle 1.
    { apply IH. }
    destruct (VEHICLE_CLASS_MAP !! class_name (classes !! i)) as [ty|] eqn:Hty; cycle 1.
    { apply IH. }
    destruct (Qgtb sc confidenceThreshold) eqn:Hgt; cycle 1.
    { apply IH. }
    unfold bind at 1, Date_now at 1.
    destruct (generateLicensePlate_runs (set_ticks (S (ticks s)) s)) as [plate Hplate].
    bind_with Hplate.
    unfold bind at 1, Date_now at 1.
    match goal with
    | |- context [decode_loop _ _ _ n (S i) (acc ++ [?d]) ?s1] =>
        destruct (IH (S i) (acc ++ [d]) s1) as (out & s' & Hrun & Hst & Hcon & Hall);
        exists (d :: out), s'
    end.
    rewrite Hrun, <- app_assoc. split; [done|]. split; [|split].
    + eapply same_store_trans; [|exact Hst]. by destruct s.
    + rewrite Hcon. by destruct s.
    + constructor; [|done]. repeat split; simpl; eauto.
Qed.




End DecodeLoop.

Lemma postProcessDetections_missing predictions s :
  length predictions < 4 ->
  postProcessDetections predictions s =
  (Ret [], set_console (console s ++ ["error: Post-processing failed: TypeError"]) s).
Proof.
  intros Hlen.
  destruct predictions as [|b [|c [|sc [|nd rest]]]]; simpl in Hlen; try lia; reflexivity.
Qed.

(** The decoder always returns to its caller, whatever it is given. *)
Lemma postProcessDetections_returns predictions s :
  exists ds s',
    postProcessDetections predictions s = (Ret ds, s') /\ same_store s s'.
Proof.
  destruct (decide (length predictions < 4)) as [Hlt|Hge].
  - rewrite postProcessDetections_missing by done. eauto with store.
  - destruct predictions as [|b [|c [|sc [|nd rest]]]]; simpl in Hge; try lia.
    unfold postProcessDetections, try_catch, bind, tensor_data, ret. simpl.
    destruct (decode_loop_spec b c sc (iterations (nd !! 0)) 0 [] s)
      as (out & s' & Hrun & Hst & _).
    rewrite Hrun. eauto.
Qed.

Lemma postProcessDetections_four boxes classes scores numDetections rest s :
  postProcessDetections (boxes :: classes :: scores :: numDetections :: rest) s =
  decode_loop boxes classes scores (iterations (numDetections !! 0)) 0 [] s.
Proof.
  unfold postProcessDetections, try_catch, bind, tensor_data, ret. simpl.
  destruct (decode_loop_spec boxes classes scores (iterations (numDetections !! 0)) 0 [] s)
    as (out & s' & Hrun & _).
  by rewrite Hrun.
Qed.



Lemma Qgtb_true a b : Qgtb a b = true <-> (b < a)%Q.
Proof.
  unfold Qgtb. rewrite negb_true_iff, <- not_true_iff_false, Qle_bool_iff.
  split; [apply Qnot_le_lt | apply Qlt_not_le].
Qed.


Lemma mapped_types_range k ty :
  VEHICLE_CLASS_MAP !! k = Some ty -> ty ∈ mapped_types.
Proof.
  intros H. apply elem_of_list_to_map_2 in H.
  unfold VEHICLE_CLASS_MAP_entries in H.
  repeat (apply elem_of_cons in H as [[= _ ->]|H]; [unfold mapped_types; set_solver|]).
  by apply elem_of_nil in H.
Qed.

Lemma pixel_bbox_row boxes i y1 x1 y2 x2 :
  boxes !! (i * 4) = Some y1 -> boxes !! (i * 4 + 1) = Some x1 ->
  boxes !! (i * 4 + 2) = Some y2 -> boxes !! (i * 4 + 3) = Some x2 ->
  pixel_bbox boxes i =
  {| x := binary64 (x1 * 320); y := binary64 (y1 * 320);
     width := mul (binary64 (x2 - x1)) (Fin 320);
     height := mul (binary64 (y2 - y1)) (Fin 320) |}.
Proof. intros H0 H1 H2 H3. unfold pixel_bbox. by rewrite H0, H1, H2, H3. Qed.




(** ** Arithmetic of doubles *)

(** The integer chosen is within one half of the number rounded. *)
Lemma round_half_even_near (q : Q) :
  (Qabs (inject_Z (round_half_even q) - q) <= 1 # 2)%Q.
Proof.
  unfold round_half_even.
  assert (Hlo := Qfloor_le q). assert (Hhi := Qlt_floor q).
  rewrite inject_Z_plus in Hhi. change (inject_Z 1) with 1%Q in Hhi.
  assert (Hup : (inject_Z (Qfloor q + 1) == inject_Z (Qfloor q) + 1)%Q)
    by (by rewrite inject_Z_plus).
  destruct (Qcompare_spec (q - inject_Z (Qfloor q)) (1 # 2)) as [He|Hl|Hg].
  - destruct (Z.even (Qfloor q)).
    + apply Qabs_case; intros _; lra.
    + rewrite Hup. apply Qabs_case; intros _; lra.
  - apply Qabs_case; intros _; lra.
  - rewrite Hup. apply Qabs_case; intros _; lra.
Qed.

Lemma pow2_pos (e : Z) : (0 < 2 ^ e)%Q.
Proof. apply Qpower_0_lt. lra. Qed.

(** The error of rounding is at most half a unit in the last place. *)
Lemma round_to_near (prec emin : Z) (q : Q) :
  ~ (q == 0)%Q ->
  (Qabs (round_to prec emin q - q)
   <= 2 ^ Z.max (binade q - (prec - 1)) emin * (1 # 2))%Q.
Proof.
  intros Hq. unfold round_to.
  destruct (Qeq_bool q 0) eqn:Hz; [by apply Qeq_bool_iff in Hz|].
  set (u := Z.max (binade q - (prec - 1)) emin).
  assert (Hpos := pow2_pos u).
  rewrite Qred_correct.
  assert (Hnear := round_half_even_near (q / 2 ^ u)).
  set (m := inject_Z (round_half_even (q / 2 ^ u))) in *.
  assert (Heq : (m * 2 ^ u - q == (m - q / 2 ^ u) * 2 ^ u)%Q).
  { field. lra. }
  rewrite Heq, Qabs_Qmult, (Qabs_pos (2 ^ u)) by lra.
  rewrite (Qmult_comm (2 ^ u)).
  apply Qmult_le_compat_r; [done|lra].
Qed.

(** [binade q] is not above the magnitude of [q]. *)
Lemma binade_le (q : Q) : ~ (q == 0)%Q -> (2 ^ binade q <= Qabs q)%Q.
Proof.
  intros Hq. unfold binade.
  set (a := Z.log2 (Z.abs (Qnum q))). set (b := Z.log2 (Z.pos (Qden q))).
  destruct (Qle_bool (2 ^ (a - b)) (Qabs q)) eqn:Hle; [by apply Qle_bool_iff|].
  assert (Hn : (0 < Z.abs (Qnum q))%Z).
  { destruct q as [n d]. unfold Qeq in Hq. simpl in *. lia. }
  assert (Ha := Z.log2_spec _ Hn). fold a in Ha.
  assert (Hb := Z.log2_spec (Z.pos (Qden q)) ltac:(lia)). fold b in Hb.
  assert (Ha0 : (0 <= a)%Z) by apply Z.log2_nonneg.
  assert (Hb0 : (0 <= b)%Z) by apply Z.log2_nonneg.
  assert (Habs : (Qabs q == inject_Z (Z.abs (Qnum q)) / inject_Z (Z.pos (Qden q)))%Q).
  { destruct q as [n d]. unfold Qabs. simpl. unfold Qeq, Qdiv, Qmult, Qinv, inject_Z. simpl. lia. }
  rewrite Habs.
  assert (Hpa : (2 ^ a <= inject_Z (Z.abs (Qnum q)))%Q).
  { rewrite <- (Zpower_Qpower 2 a) by done. rewrite <- Zle_Qle. lia. }
  assert (Hpb : (inject_Z (Z.pos (Qden q)) <= 2 ^ (b + 1))%Q).
  { rewrite <- (Zpower_Qpower 2 (b + 1)) by lia. rewrite <- Zle_Qle.
    replace (b + 1)%Z with (Z.succ b) by lia. lia. }
  assert (Hd : (0 < inject_Z (Z.pos (Qden q)))%Q).
  { replace 0%Q with (inject_Z 0) by done. rewrite <- Zlt_Qlt. lia. }
  assert (Hsplit : (2 ^ (a - b - 1) == 2 ^ a / 2 ^ (b + 1))%Q).
  { replace (a - b - 1)%Z with (a + - (b + 1))%Z by lia.
    rewrite Qpower_plus by lra. rewrite Qpower_opp. reflexivity. }
  rewrite Hsplit.
  assert (H1 := pow2_pos a). assert (H2 := pow2_pos (b + 1)).
  apply Qle_shift_div_l; [done|].
  assert (Hx : (2 ^ a / 2 ^ (b + 1) * inject_Z (Z.pos (Qden q)) <= 2 ^ a / 2 ^ (b + 1) * 2 ^ (b + 1))%Q).
  { rewrite !(Qmult_comm (2 ^ a / 2 ^ (b + 1))).
    apply Qmult_le_compat_r; [done|]. apply Qlt_le_weak, Qlt_shift_div_l; lra. }
  assert (Hy : (2 ^ a / 2 ^ (b + 1) * 2 ^ (b + 1) == 2 ^ a)%Q) by (field; lra).
  lra.
Qed.

(** The error of an operation on doubles: at most the fraction [2 ^ -53]
    of the exact result, or [2 ^ -1075] for a result in the subnormal
    range. *)
Lemma binary64_accurate (q r : Q) :
  binary64 q = Fin r ->
  (Qabs (r - q) <= Qabs q * 2 ^ (-53) + 2 ^ (-1075))%Q.
Proof.
  unfold binary64. destruct (Qle_bool (2 ^ 1024) (Qabs (double q))); [done|].
  intros [= <-].
  assert (Hq0 := Qabs_nonneg q).
  assert (He := pow2_pos (-53)). assert (Hn := pow2_pos (-1075)).
  destruct (Qeq_dec q 0) as [Hz|Hnz].
  { unfold double, round_to.
    assert (Qeq_bool q 0 = true) as -> by by apply Qeq_bool_iff.
    rewrite Hz. change (Qabs (0 - 0)) with 0%Q. change (Qabs 0) with 0%Q. lra. }
  assert (Hnear := round_to_near 53 (-1074) q Hnz).
  assert (Hb := binade_le q Hnz).
  fold (double q) in Hnear.
  change (53 - 1)%Z with 52%Z in Hnear.
  destruct (Z.max_spec (binade q - 52) (-1074)) as [[_ Hmax]|[_ Hmax]];
    rewrite Hmax in Hnear.
  - assert (2 ^ (-1074) * (1 # 2) == 2 ^ (-1075))%Q as Hs by reflexivity.
    assert (0 <= Qabs q * 2 ^ (-53))%Q by (apply Qmult_le_0_compat; lra).
    lra.
  - assert (Hs : (2 ^ (binade q - 52) * (1 # 2) == 2 ^ binade q * 2 ^ (-53))%Q).
    { replace (binade q - 52)%Z with (binade q + -52)%Z by lia.
      rewrite Qpower_plus by lra.
      assert (2 ^ (-52) * (1 # 2) == 2 ^ (-53))%Q as <- by reflexivity.
      ring. }
    assert (2 ^ binade q * 2 ^ (-53) <= Qabs q * 2 ^ (-53))%Q
      by (apply Qmult_le_compat_r; lra).
    lra.
Qed.

(** C4, as stated.  The row [[0.1, 0.2, 0.5, 0.6]] does not decode to
    [{x: 64, y: 32, width: 128, height: 128}].  Held as doubles, it gives
    the width [(0.6 - 0.2) * 320 = 127.99999999999999], one unit in the
    last place below 128; held in a [Float32Array], it gives four
    coordinates none of which is the stated one. *)
Lemma example_row_decodes_inexactly :
  (exists d s',
     postProcessDetections [example_row; [2]; [9 # 10]; [1]]%Q idle_service = (Ret [d], s') /\
     width (bbox d) = Fin (9007199254740991 # 70368744177664) /\
     ~ bbox_eqv (bbox d) {| x := Fin 64; y := Fin 32; width := Fin 128; height := Fin 128 |}) /\
  (exists d s',
     postProcessDetections [example_row_float32; [2]; [9 # 10]; [1]]%Q idle_service
     = (Ret [d], s') /\
     ~ eqv (x (bbox d)) (Fin 64) /\ ~ eqv (y (bbox d)) (Fin 32) /\
     ~ eqv (width (bbox d)) (Fin 128) /\ ~ eqv (height (bbox d)) (Fin 128)).
Proof.
  split.
  - eexists _, _. split; [vm_compute; reflexivity|].
    split; [vm_compute; reflexivity|].
    intros (_ & _ & Hw & _). vm_compute in Hw. discriminate.
  - eexists _, _. split; [vm_compute; reflexivity|].
    repeat split; intros H; vm_compute in H; discriminate.
Qed.

(** C4, amended.  The decoder emits one detection per accepted entry, in
    index order, and the detection of an entry whose box row is
    [[y1, x1, y2, x2]] has the bounding box
    [x = x1 * 320], [y = y1 * 320], [width = (x2 - x1) * 320],
    [height = (y2 - y1) * 320], where every operation is that of
    doubles: its result is the double nearest to the exact one, which
    differs from it by at most the fraction [2 ^ -53] of its magnitude
    (or by [2 ^ -1075], for a result in the subnormal range).  The row
    [[0.1, 0.2, 0.5, 0.6]], held as doubles, gives
    [{x: 64, y: 32, width: 127.99999999999999, height: 128}], and held in
    a [Float32Array] it gives
    [{x: 64.00000095367432, y: 32.00000047683716,
      width: 128.0000066757202, height: 127.99999952316284}];
    a row of multiples of 1/8 such as [[0.125, 0.25, 0.5, 0.625]] gives
    the exact [{x: 80, y: 40, width: 120, height: 120}]. *)
Theorem decoder_pixel_coordinates :
  (forall boxes classes scores numDetections s,
     exists ds s',
       postProcessDetections [boxes; classes; scores; numDetections] s = (Ret ds, s') /\
       Forall2
         (fun i d =>
            (exists now, id d = vehicle_id now i) /\
            forall y1 x1 y2 x2,
              boxes !! (i * 4) = Some y1 -> boxes !! (i * 4 + 1) = Some x1 ->
              boxes !! (i * 4 + 2) = Some y2 -> boxes !! (i * 4 + 3) = Some x2 ->
              bbox d = {| x := binary64 (x1 * 320); y := binary64 (y1 * 320);
                          width := mul (binary64 (x2 - x1)) (Fin 320);
                          height := mul (binary64 (y2 - y1)) (Fin 320) |})
         (List.filter (accepted classes scores) (seq 0 (iterations (numDetections !! 0))))
         ds) /\
  (forall q r,
     binary64 q = Fin r ->
     (Qabs (r - q) <= Qabs q * 2 ^ (-53) + 2 ^ (-1075))%Q) /\
  (forall cls sc s,
     accepted [cls] [sc] 0 = true ->
     (exists d s',
        postProcessDetections [example_row; [cls]; [sc]; [1]]%Q s = (Ret [d], s') /\
        bbox d = {| x := Fin 64; y := Fin 32;
                    width := Fin (9007199254740991 # 70368744177664);
                    height := Fin 128 |}) /\
     (exists d s',
        postProcessDetections [example_row_float32; [cls]; [sc]; [1]]%Q s = (Ret [d], s') /\
        bbox d = {| x := Fin (67108865 # 1048576); y := Fin (67108865 # 2097152);
                    width := Fin (134217735 # 1048576);
                    height := Fin (268435455 # 2097152) |}) /\
     (exists d s',
        postProcessDetections [[1 # 8; 2 # 8; 4 # 8; 5 # 8]; [cls]; [sc]; [1]]%Q s
        = (Ret [d], s') /\
        bbox d = {| x := Fin 80; y := Fin 40; width := Fin 120; height := Fin 120 |})).
Proof.
  split.
  - intros boxes classes scores numDetections s.
    rewrite postProcessDetections_four.
    destruct (decode_loop_spec boxes classes scores (iterations (numDetections !! 0)) 0 [] s)
      as (out & s' & Hrun & _ & _ & Hall).
    exists out, s'. split; [done|].
    eapply Forall2_impl; [exact Hall|].
    intros i d (_ & _ & Hbox & Hid). split; [done|].
    intros y1 x1 y2 x2 H0 H1 H2 H3. rewrite Hbox. by apply pixel_bbox_row.
  - split; [exact binary64_accurate|].
    intros cls sc s Hacc.
    assert (Hone : forall row,
      exists d s',
        postProcessDetections [row; [cls]; [sc]; [1]]%Q s = (Ret [d], s') /\
        bbox d = pixel_bbox row 0).
    { intros row. rewrite postProcessDetections_four.
      destruct (decode_loop_spec row [cls] [sc] 1 0 [] s)
        as (out & s' & Hrun & _ & _ & Hall).
      change (iterations ([1%Q] !! 0)) with 1. rewrite Hrun.
      cbn [seq List.filter] in Hall. rewrite Hacc in Hall.
      inversion Hall as [|? d ? out' Hd Hnil]; subst. inversion Hnil; subst.
      exists d, s'. split; [done|]. by destruct Hd as (_ & _ & Hbox & _). }
    split; [|split].
    + destruct (Hone example_row) as (d & s' & Hrun & Hbox).
      exists d, s'. split; [done|]. rewrite Hbox. vm_compute. reflexivity.
    + destruct (Hone example_row_float32) as (d & s' & Hrun & Hbox).
      exists d, s'. split; [done|]. rewrite Hbox. vm_compute. reflexivity.
    + destruct (Hone [1 # 8; 2 # 8; 4 # 8; 5 # 8]%Q) as (d & s' & Hrun & Hbox).
      exists d, s'. split; [done|]. rewrite Hbox. vm_compute. reflexivity.
Qed.

(** C4, witness: the example row, decoded for a car with score 0.9. *)
Lemma decoder_pixel_coordinates_witness :
  accepted [2]%Q [9 # 10]%Q 0 = true /\
  exists d s',
    postProcessDetections [example_row; [2]; [9 # 10]; [1]]%Q
                          (new_service (fun _ => 0%Z) (fun _ => 0%Q))
    = (Ret [d], s') /\
    bbox d = {| x := Fin 64; y := Fin 32;
                width := Fin (9007199254740991 # 70368744177664);
                height := Fin 128 |}.
Proof.
  assert (Hacc : accepted [2]%Q [9 # 10]%Q 0 = true) by (vm_compute; reflexivity).
  split; [exact Hacc|].
  exact (proj1 (proj2 (proj2 decoder_pixel_coordinates) 2%Q (9 # 10)%Q _ Hacc)).
Defined.

(** C6.  Whatever the raw output, the decoder returns, and every
    detection it returns has one of the categories bicycle, car,
    motorcycle, bus, truck: never van, never unknown.  These five are the
    whole range of the label map.  The simulation generator, on the other
    hand, has a run that yields a van. *)
Theorem decoder_never_van_but_simulation_can :
  (forall predictions s,
     exists ds s',
       postProcessDetections predictions s = (Ret ds, s') /\
       Forall (fun d => type d ∈ mapped_types /\ type d <> VAN /\ type d <> UNKNOWN) ds) /\
  (forall k ty, VEHICLE_CLASS_MAP !! k = Some ty -> ty ∈ mapped_types) /\
  (exists s ds s' d,
     simulateDetection s = (Ret ds, s') /\ d ∈ ds /\ type d = VAN).
Proof.
  split; [|split].
  - intros predictions s.
    destruct (decide (length predictions < 4)) as [Hlt|Hge].
    { rewrite postProcessDetections_missing by done. eauto. }
    destruct predictions as [|b [|c [|sc [|nd rest]]]]; simpl in Hge; try lia.
    rewrite postProcessDetections_four.
    destruct (decode_loop_spec b c sc (iterations (nd !! 0)) 0 [] s)
      as (out & s' & Hrun & _ & _ & Hall).
    exists out, s'. split; [done|].
    apply Forall_forall. intros d Hd.
    apply list_elem_of_lookup in Hd as [n Hn].
    destruct (Forall2_lookup_r _ _ _ _ _ Hall Hn) as (i & _ & _ & Hty & _).
    apply mapped_types_range in Hty. split; [done|].
    unfold mapped_types in Hty.
    split; intros Heq; rewrite Heq in Hty;
      repeat (apply elem_of_cons in Hty as [?|Hty]; [done|]); by apply elem_of_nil in Hty.
  - apply mapped_types_range.
  - exists (new_service (fun _ => 0%Z) (fun n => match n with O => (1 # 2)%Q | _ => (9 # 10)%Q end)).
    eexists _, _, _. split; [vm_compute; reflexivity|]. split; [constructor|done].
Qed.

(** C6, witness: the label truck. *)
Lemma decoder_never_van_but_simulation_can_witness :
  VEHICLE_CLASS_MAP !! "truck" = Some TRUCK /\ TRUCK ∈ mapped_types.
Proof.
  assert (H : VEHICLE_CLASS_MAP !! "truck" = Some TRUCK) by (vm_compute; reflexivity).
  split; [exact H|].
  exact (proj1 (proj2 decoder_never_van_but_simulation_can) "truck" TRUCK H).
Defined.

(** ** The simulation generator *)

Lemma floor_scaled_range (r : Q) (m : Z) :
  (0 < m)%Z -> (0 <= r)%Q -> (r < 1)%Q ->
  (0 <= Qfloor (r * inject_Z m) < m)%Z.
Proof.
  intros Hm H0 H1.
  assert (Hm' : (inject_Z 0 < inject_Z m)%Q) by (rewrite <- Zlt_Qlt; exact Hm).
  change (inject_Z 0) with 0%Q in Hm'.
  split.
  - change 0%Z with (Qfloor 0). apply Qfloor_resp_le. nra.
  - rewrite Zlt_Qlt. eapply Qle_lt_trans; [apply Qfloor_le|]. nra.
Qed.

Lemma vehicleTypes_slot (r : Q) :
  (0 <= r)%Q -> (r < 1)%Q ->
  exists t, at_Z vehicleTypes (Qfloor (r * 6)) = Some t /\
            t ∈ [CAR; BUS; TRUCK; MOTORCYCLE; BICYCLE; VAN].
Proof.
  intros H0 H1.
  pose proof (floor_scaled_range r 6 ltac:(lia) H0 H1) as Hz.
  change (inject_Z 6) with 6%Q in Hz.
  set (z := Qfloor (r * 6)) in *.
  assert (Hcases : z = 0%Z \/ z = 1%Z \/ z = 2%Z \/ z = 3%Z \/ z = 4%Z \/ z = 5%Z) by lia.
  clear Hz.
  destruct Hcases as [->|[->|[->|[->|[->| ->]]]]]; eexists; (split; [reflexivity|]);
    repeat constructor.
Qed.

(** The loop builds [n] detections; detection [k] is built from the
    six draws that start [13 * k] draws after the loop is entered (the
    plate consumes the other seven). *)
Lemma simulate_loop_spec n : forall i acc s,
  exists out s',
    simulate_loop n i acc s = (Ret (acc ++ out), s') /\
    same_store s s' /\
    console s' = console s /\
    length out = n /\
    (unit_draws (entropy s) ->
     forall k d, out !! k = Some d ->
       simulated_entry (entropy s) (draws s + 13 * k) (i + k) d).
Proof.
  induction n as [|n IH]; intros i acc s.
  - exists [], s. simpl. rewrite app_nil_r.
    split; [done|]. split; [auto with store|]. split; [done|]. split; [done|].
    intros _ k d Hk. by rewrite lookup_nil in Hk.
  - cbn [simulate_loop].
    change (inject_Z (Z.of_nat (length vehicleTypes))) with 6%Q.
    unfold bind at 1, Math_random at 1.
    unfold bind at 1, Date_now at 1.
    do 5 (unfold bind at 1, Math_random at 1).
    match goal with
    | |- context [bind generateLicensePlate _ ?s1] =>
        destruct (generateLicensePlate_runs s1) as [plate Hplate];
        rewrite (bind_ret _ _ _ _ _ Hplate)
    end.
    unfold bind at 1, Date_now at 1.
    match goal with
    | |- context [simulate_loop n (S i) (acc ++ [?d]) ?s1] =>
        destruct (IH (S i) (acc ++ [d]) s1) as (out & s' & Hrun & Hst & Hcon & Hlen & Hall);
        exists (d :: out), s'
    end.
    rewrite Hrun, <- app_assoc. split; [done|]. split; [|split; [|split]].
    + eapply same_store_trans; [|exact Hst]. by destruct s.
    + rewrite Hcon. by destruct s.
    + simpl. by rewrite Hlen.
    + intros Hunit [|k] d' Hk.
      * injection Hk as <-. clear IH Hrun Hall Hplate Hst Hcon.
        rewrite Nat.mul_0_r, !Nat.add_0_r.
        destruct (vehicleTypes_slot (entropy s (draws s))) as (t & Ht & _);
          [apply Hunit..|].
        destruct s as [m dv ld vc h clk tk ent dr con]; simpl in *.
        unfold simulated_entry; simpl. rewrite Ht. simpl.
        rewrite !Nat.add_succ_r, !Nat.add_0_r. repeat split; eauto.
      * simpl in Hk. apply Hall in Hk; [|by destruct s].
        match type of Hk with
        | simulated_entry (entropy ?s1) (draws ?s1 + _) _ _ =>
            assert (He : entropy s1 = entropy s) by (by destruct s);
            assert (Hd : draws s1 = 13 + draws s) by (by destruct s)
        end.
        rewrite He, Hd in Hk.
        replace (draws s + 13 * S k) with (13 + draws s + 13 * k) by lia.
        replace (i + S k) with (S i + k) by lia. exact Hk.
Qed.



Lemma simulated_entry_bounds rnd j i d :
  unit_draws rnd -> simulated_entry rnd j i d ->
  type d ∈ [CAR; BUS; TRUCK; MOTORCYCLE; BICYCLE; VAN] /\ simulated_bounds d.
Proof.
  intros Hunit (Hty & Hconf & Hbox & _). split.
  - destruct (vehicleTypes_slot (rnd j)) as (t & Ht & Hin); [apply Hunit..|].
    rewrite Hty in Ht. by injection Ht as ->.
  - unfold simulated_bounds. do 4 eexists. split; [exact Hbox|].
    rewrite Hconf.
    pose proof (Hunit (j + 1)). pose proof (Hunit (j + 2)). pose proof (Hunit (j + 3)).
    pose proof (Hunit (j + 4)). pose proof (Hunit (j + 5)).
    repeat split; lra.
Qed.





(** ** Producers always hand back a list *)

Lemma simulateDetection_returns s :
  exists ds s', simulateDetection s = (Ret ds, s') /\ same_store s s'.
Proof.
  unfold simulateDetection. unfold bind at 1, Math_random at 1.
  destruct (Qltb _ _).
  - eexists _, _. split; [reflexivity|]. auto with store.
  - unfold bind at 1, Math_random at 1.
    match goal with
    | |- context [simulate_loop ?n 0 [] ?s1] =>
        destruct (simulate_loop_spec n 0 [] s1) as (out & s' & Hrun & Hst & _)
    end.
    exists out, s'. split; [exact Hrun|].
    eapply same_store_trans; [|exact Hst]. by destruct s.
Qed.

(** The three ways [loadImage] ends. *)
Lemma loadImage_loaded tf imageUri img s :
  fromPixels tf imageUri = Ret img -> loadImage tf imageUri s = (Ret img, s).
Proof.
  unfold loadImage, fromPixels, Image, try_catch, bind, call, ret, await.
  destruct (image tf imageUri) as [e|pixels]; [done|]. by intros ->.
Qed.

Lemma loadImage_rejected tf imageUri e s :
  image tf imageUri = Element (Throw e) -> loadImage tf imageUri s = (Throw e, s).
Proof.
  unfold loadImage, fromPixels, Image, try_catch, bind, call, ret, await.
  by intros ->.
Qed.

Lemma loadImage_no_element tf imageUri e s :
  image tf imageUri = NoElement e ->
  loadImage tf imageUri s =
  (Throw e, set_console (console s ++ ["error: Failed to load image: " +:+ e]) s).
Proof.
  unfold loadImage, fromPixels, Image, try_catch, bind, call, ret, await.
  by intros ->.
Qed.

Lemma loadImage_failed tf imageUri e s :
  fromPixels tf imageUri = Throw e ->
  loadImage tf imageUri s =
  (Throw e, set_console (console s ++ load_failure_log tf imageUri) s).
Proof.
  unfold fromPixels, load_failure_log. intros He.
  destruct (image tf imageUri) as [e'|pixels] eqn:Himg.
  - injection He as ->. by apply loadImage_no_element.
  - subst pixels. rewrite (loadImage_rejected _ _ _ _ Himg), app_nil_r. by destruct s.
Qed.

Lemma runRealDetection_returns tf imageUri s :
  exists ds s', runRealDetection tf imageUri s = (Ret ds, s') /\ same_store s s'.
Proof.
  unfold runRealDetection, try_catch, await.
  unfold bind at 1.
  destruct (fromPixels tf imageUri) as [img|e] eqn:Himg; cycle 1.
  { rewrite (loadImage_failed _ _ _ _ Himg).
    eexists _, _. split; [reflexivity|].
    eapply same_store_trans; apply same_store_console. }
  rewrite (loadImage_loaded _ _ _ _ Himg).
  unfold bind at 1, this_model at 1.
  destruct (model s) as [gm|]; cycle 1.
  { eexists _, _. split; [reflexivity|]. auto with store. }
  unfold bind at 1.
  destruct (predict gm (preprocessImage tf img)) as [predictions|e]; cycle 1.
  { eexists _, _. split; [reflexivity|]. auto with store. }
  destruct (postProcessDetections_returns predictions s) as (ds & s' & Hrun & Hst).
  bind_with Hrun. exists ds, s'. by split.
Qed.

(** ** The heap *)

Lemma set_heap_twice h1 h2 s : set_heap h2 (set_heap h1 s) = set_heap h2 s.
Proof. by destruct s. Qed.

Lemma set_heap_same s : set_heap (heap s) s = s.
Proof. by destruct s. Qed.

Lemma fresh_unused (h : gmap loc obj) : h !! fresh (dom h) = None.
Proof. apply not_elem_of_dom, is_fresh. Qed.

Lemma vehicles_at_Some h ls ds :
  vehicles_at h ls = Some ds <->
  Forall2 (fun l d => h !! l = Some (OVehicle d)) ls ds.
Proof.
  unfold vehicles_at. rewrite mapM_Some.
  split; intros H; (eapply Forall2_impl; [exact H|]); intros l d; simpl.
  - intros Hv. destruct (h !! l) as [o|]; [destruct o|]; simpl in Hv; congruence.
  - by intros ->.
Qed.

Lemma vehicles_at_weaken h h' ls ds :
  h ⊆ h' -> vehicles_at h ls = Some ds -> vehicles_at h' ls = Some ds.
Proof.
  rewrite !vehicles_at_Some. intros Hsub H.
  eapply Forall2_impl; [exact H|]. intros l d Hl. exact (lookup_weaken _ _ _ _ Hl Hsub).
Qed.

Lemma vehicles_at_insert h l o ls :
  vehicle_of (Some o) = vehicle_of (h !! l) ->
  vehicles_at (<[l := o]> h) ls = vehicles_at h ls.
Proof.
  intros Hsame. unfold vehicles_at. apply mapM_ext. intros l'.
  destruct (decide (l = l')) as [->|Hne].
  - by rewrite lookup_insert_eq.
  - by rewrite lookup_insert_ne.
Qed.

Lemma vehicles_at_app h a b da db :
  vehicles_at h a = Some da -> vehicles_at h b = Some db ->
  vehicles_at h (a ++ b) = Some (da ++ db).
Proof. rewrite !vehicles_at_Some. apply Forall2_app. Qed.

Lemma alloc_vehicles_spec ds : forall s,
  exists ls h',
    alloc_vehicles ds s = (Ret ls, set_heap h' s) /\
    heap s ⊆ h' /\
    vehicles_at h' ls = Some ds.
Proof.
  induction ds as [|d ds IH]; intros s.
  - exists [], (heap s). simpl. unfold ret. by rewrite set_heap_same.
  - cbn [alloc_vehicles]. unfold bind at 1, alloc at 1.
    set (l := fresh (dom (heap s))).
    destruct (IH (set_heap (<[l := OVehicle d]> (heap s)) s)) as (ls & h' & Hrun & Hsub & Hls).
    bind_with Hrun. unfold ret.
    exists (l :: ls), h'. rewrite set_heap_twice.
    assert (Hsub' : <[l := OVehicle d]> (heap s) ⊆ h') by (by destruct s).
    split; [done|]. split.
    + etrans; [|exact Hsub']. apply insert_subseteq, fresh_unused.
    + apply vehicles_at_Some. constructor.
      * eapply lookup_weaken; [|exact Hsub']. apply lookup_insert_eq.
      * by apply vehicles_at_Some.
Qed.

Lemma new_array_spec ds s :
  exists l ls h',
    new_array ds s = (Ret l, set_heap h' s) /\
    heap s ⊆ h' /\
    heap s !! l = None /\
    h' !! l = Some (OArray ls) /\
    vehicles_at h' ls = Some ds.
Proof.
  unfold new_array.
  destruct (alloc_vehicles_spec ds s) as (ls & h1 & Hrun & Hsub & Hls).
  bind_with Hrun. unfold alloc.
  set (l := fresh (dom (heap (set_heap h1 s)))).
  assert (Hl : h1 !! l = None) by (subst l; destruct s; apply fresh_unused).
  exists l, ls, (<[l := OArray ls]> h1). rewrite set_heap_twice.
  replace (heap (set_heap h1 s)) with h1 by (by destruct s).
  split; [done|]. split; [|split; [|split]].
  - etrans; [exact Hsub|]. by apply insert_subseteq.
  - destruct (heap s !! l) eqn:Heq; [|done].
    eapply lookup_weaken in Heq; [|exact Hsub]. congruence.
  - apply lookup_insert_eq.
  - eapply vehicles_at_weaken; [|exact Hls]. by apply insert_subseteq.
Qed.

Lemma load_count_ok l c s :
  heap s !! l = Some (OCount c) -> load_count l s = (Ret c, s).
Proof. intros H. unfold load_count, bind, load. by rewrite H. Qed.

Lemma load_array_ok l a s :
  heap s !! l = Some (OArray a) -> load_array l s = (Ret a, s).
Proof. intros H. unfold load_array, bind, load. by rewrite H. Qed.

Lemma load_vehicle_ok l d s :
  heap s !! l = Some (OVehicle d) -> load_vehicle l s = (Ret d, s).
Proof. intros H. unfold load_vehicle, bind, load. by rewrite H. Qed.

(** ** Counting *)

Lemma count_detection_spec l d c s :
  heap s !! l = Some (OVehicle d) ->
  heap s !! vehicleCount s = Some (OCount c) ->
  count_detection l s =
  (Ret tt, set_heap (<[vehicleCount s := OCount (incr KTotal (incr (KType (type d)) c))]> (heap s)) s).
Proof.
  intros Hl Hc. unfold count_detection.
  bind_with (load_vehicle_ok _ _ _ Hl).
  unfold bind at 1, this_vehicleCount at 1.
  bind_with (load_count_ok _ _ _ Hc).
  unfold bind at 1, store at 1.
  unfold bind at 1, this_vehicleCount at 1.
  erewrite bind_ret; cycle 1.
  { apply load_count_ok. destruct s; simpl. apply lookup_insert_eq. }
  unfold store. destruct s; simpl. by rewrite insert_insert_eq.
Qed.

Lemma count_loop_spec ls : forall ds c s,
  vehicles_at (heap s) ls = Some ds ->
  heap s !! vehicleCount s = Some (OCount c) ->
  for_each ls count_detection s =
  (Ret tt, set_heap (<[vehicleCount s := OCount (tally ds c)]> (heap s)) s).
Proof.
  induction ls as [|l ls IH]; intros ds c s Hds Hc.
  - apply vehicles_at_Some in Hds. inversion Hds; subst. simpl. unfold ret.
    by rewrite insert_id, set_heap_same.
  - apply vehicles_at_Some in Hds.
    inversion Hds as [|? d ? ds' Hl Hrest]; subst.
    cbn [for_each].
    bind_with (count_detection_spec _ _ _ _ Hl Hc).
    set (c1 := incr KTotal (incr (KType (type d)) c)).
    rewrite (IH ds' c1).
    + rewrite set_heap_twice. destruct s; simpl. by rewrite insert_insert_eq.
    + destruct s; simpl in *. rewrite vehicles_at_insert.
      * by apply vehicles_at_Some.
      * by rewrite Hc.
    + destruct s; simpl. apply lookup_insert_eq.
Qed.

Lemma updateVehicleCounts_spec l ls ds c s :
  heap s !! l = Some (OArray ls) ->
  vehicles_at (heap s) ls = Some ds ->
  heap s !! vehicleCount s = Some (OCount c) ->
  updateVehicleCounts l s =
  (Ret tt, set_heap (<[vehicleCount s := OCount (tally ds c)]> (heap s)) s).
Proof.
  intros Hl Hds Hc. unfold updateVehicleCounts.
  bind_with (load_array_ok _ _ _ Hl).
  by apply count_loop_spec.
Qed.

Lemma push_all_spec l items arr s :
  heap s !! l = Some (OArray items) ->
  heap s !! detectedVehicles s = Some (OArray arr) ->
  push_all l s =
  (Ret tt, set_heap (<[detectedVehicles s := OArray (arr ++ items)]> (heap s)) s).
Proof.
  intros Hl Hdv. unfold push_all.
  bind_with (load_array_ok _ _ _ Hl).
  unfold bind at 1, this_detectedVehicles at 1.
  bind_with (load_array_ok _ _ _ Hdv).
  reflexivity.
Qed.

Lemma incr_consistent key c :
  total c = sum_counts c ->
  total (incr KTotal (incr (KType key) c)) = sum_counts (incr KTotal (incr (KType key) c)).
Proof.
  unfold sum_counts. destruct c, key; simpl; intros ->; lia.
Qed.

Lemma tally_consistent ds : forall c,
  total c = sum_counts c -> total (tally ds c) = sum_counts (tally ds c).
Proof.
  induction ds as [|d ds IH]; intros c Hc; [done|].
  apply IH. by apply incr_consistent.
Qed.

(** ** Recording a batch of detections *)

(** The tail shared by both branches of [detectVehicles]: the batch
    becomes an array, is counted, and is appended to the history. *)
Lemma record_batch_spec ds c a old s :
  heap s !! vehicleCount s = Some (OCount c) ->
  heap s !! detectedVehicles s = Some (OArray a) ->
  vehicles_at (heap s) a = Some old ->
  exists l ls h',
    (let* detections := new_array ds in
     updateVehicleCounts detections;;
     push_all detections;;
     ret detections) s = (Ret l, set_heap h' s) /\
    heap s !! l = None /\
    h' !! l = Some (OArray ls) /\
    h' !! vehicleCount s = Some (OCount (tally ds c)) /\
    h' !! detectedVehicles s = Some (OArray (a ++ ls)) /\
    vehicles_at h' (a ++ ls) = Some (old ++ ds).
Proof.
  intros Hc Ha Hold.
  destruct (new_array_spec ds s) as (l & ls & h1 & Hrun & Hsub & Hfresh & Hl & Hls).
  bind_with Hrun.
  assert (Hvc_l : vehicleCount s <> l) by congruence.
  assert (Hdv_l : detectedVehicles s <> l) by congruence.
  assert (Hvc_dv : vehicleCount s <> detectedVehicles s) by congruence.
  assert (Hc1 := lookup_weaken _ _ _ _ Hc Hsub).
  assert (Ha1 := lookup_weaken _ _ _ _ Ha Hsub).
  erewrite bind_ret; cycle 1.
  { eapply updateVehicleCounts_spec; destruct s; simpl in *; eauto. }
  rewrite set_heap_twice.
  set (h2 := <[vehicleCount (set_heap h1 s) := OCount (tally ds c)]> (heap (set_heap h1 s))).
  assert (Hh2 : h2 = <[vehicleCount s := OCount (tally ds c)]> h1) by (by destruct s).
  erewrite bind_ret; cycle 1.
  { eapply (push_all_spec l ls a); destruct s; simpl in *; subst h2.
    - rewrite lookup_insert_ne by done. exact Hl.
    - rewrite lookup_insert_ne by done. exact Ha1. }
  rewrite set_heap_twice. unfold ret.
  exists l, ls, (<[detectedVehicles s := OArray (a ++ ls)]> h2).
  split; [by destruct s|]. split; [done|]. rewrite Hh2.
  split; [|split; [|split]].
  - by rewrite !lookup_insert_ne.
  - rewrite lookup_insert_ne by done. apply lookup_insert_eq.
  - apply lookup_insert_eq.
  - rewrite vehicles_at_insert; cycle 1.
    { rewrite lookup_insert_ne by done. by rewrite Ha1. }
    rewrite vehicles_at_insert by (by rewrite Hc1).
    apply vehicles_at_app; [|done]. by eapply vehicles_at_weaken.
Qed.

Lemma consistent_same_store s s' :
  same_store s s' -> consistent s -> consistent s'.
Proof.
  intros (_ & Hdv & _ & Hvc & Hh & _) H. unfold consistent in *.
  by rewrite Hdv, Hvc, Hh.
Qed.

Lemma consistent_well_typed s : consistent s -> well_typed s.
Proof. intros [(c & Hc & _) Ha]. split; eauto. Qed.

Lemma record_batch_consistent ds s :
  consistent s ->
  exists l s',
    (let* detections := new_array ds in
     updateVehicleCounts detections;;
     push_all detections;;
     ret detections) s = (Ret l, s') /\ consistent s'.
Proof.
  intros [(c & Hc & Hsum) (a & old & Ha & Hold)].
  destruct (record_batch_spec ds c a old s Hc Ha Hold)
    as (l & ls & h' & Hrun & _ & _ & Hc' & Ha' & Hall).
  exists l, (set_heap h' s). split; [exact Hrun|].
  split.
  - exists (tally ds c). split; [by destruct s|]. by apply tally_consistent.
  - exists (a ++ ls), (old ++ ds). by destruct s.
Qed.

Lemma detectVehicles_consistent tf imageUri s :
  consistent s ->
  exists l s', detectVehicles tf imageUri s = (Ret l, s') /\ consistent s'.
Proof.
  intros Hs. unfold detectVehicles.
  unfold try_catch, bind at 1, this_isModelLoaded at 1.
  unfold bind at 1, this_model at 1.
  destruct (isModelLoaded s && bool_decide (is_Some (model s))).
  - destruct (runRealDetection_returns tf imageUri s) as (ds & s1 & Hrun & Hst).
    bind_with Hrun.
    destruct (record_batch_consistent ds s1) as (l & s' & Hrec & Hs').
    { by eapply consistent_same_store. }
    rewrite Hrec. eauto.
  - unfold bind at 1, console_log at 1.
    match goal with
    | |- context [bind simulateDetection _ ?s0] =>
        destruct (simulateDetection_returns s0) as (ds & s1 & Hrun & Hst);
        assert (Hst0 : same_store s s0) by auto with store
    end.
    bind_with Hrun.
    destruct (record_batch_consistent ds s1) as (l & s' & Hrec & Hs').
    { eapply consistent_same_store; [|exact Hs]. by eapply same_store_trans. }
    rewrite Hrec. eauto.
Qed.

(** ** Accessors *)

Lemma getVehicleCount_spec c s :
  heap s !! vehicleCount s = Some (OCount c) ->
  getVehicleCount s =
  (Ret (fresh (dom (heap s))), set_heap (<[fresh (dom (heap s)) := OCount c]> (heap s)) s).
Proof.
  intros Hc. unfold getVehicleCount.
  unfold bind at 1, this_vehicleCount at 1.
  by bind_with (load_count_ok _ _ _ Hc).
Qed.

Lemma getDetectedVehicles_spec a s :
  heap s !! detectedVehicles s = Some (OArray a) ->
  getDetectedVehicles s =
  (Ret (fresh (dom (heap s))), set_heap (<[fresh (dom (heap s)) := OArray a]> (heap s)) s).
Proof.
  intros Ha. unfold getDetectedVehicles.
  unfold bind at 1, this_detectedVehicles at 1.
  by bind_with (load_array_ok _ _ _ Ha).
Qed.

Lemma snapshot_reads c s :
  heap s !! vehicleCount s = Some (OCount c) -> snapshot s = Some c.
Proof.
  intros Hc. unfold snapshot. rewrite (getVehicleCount_spec c) by done.
  destruct s; simpl. by rewrite lookup_insert_eq.
Qed.

Lemma history_reads a s :
  heap s !! detectedVehicles s = Some (OArray a) ->
  history s = vehicles_at (heap s) a.
Proof.
  intros Ha. unfold history. rewrite (getDetectedVehicles_spec a) by done.
  destruct s; simpl in *. rewrite lookup_insert_eq.
  apply vehicles_at_insert. by rewrite fresh_unused.
Qed.

(** ** Reset *)

Lemma clear_key_spec key c s :
  heap s !! vehicleCount s = Some (OCount c) ->
  clear_key key s =
  (Ret tt, set_heap (<[vehicleCount s := OCount (set_count key 0 c)]> (heap s)) s).
Proof.
  intros Hc. unfold clear_key.
  unfold bind at 1, this_vehicleCount at 1.
  by bind_with (load_count_ok _ _ _ Hc).
Qed.

Lemma clear_loop_spec keys : forall c s,
  heap s !! vehicleCount s = Some (OCount c) ->
  for_each keys clear_key s =
  (Ret tt,
   set_heap (<[vehicleCount s := OCount (foldl (fun acc key => set_count key 0 acc) c keys)]>
               (heap s)) s).
Proof.
  induction keys as [|key keys IH]; intros c s Hc.
  - simpl. unfold ret. by rewrite insert_id, set_heap_same.
  - cbn [for_each foldl].
    bind_with (clear_key_spec key _ _ Hc).
    rewrite (IH (set_count key 0 c)).
    + rewrite set_heap_twice. destruct s; simpl. by rewrite insert_insert_eq.
    + destruct s; simpl. apply lookup_insert_eq.
Qed.

Lemma clear_all_keys c :
  foldl (fun acc key => set_count key 0 acc) c VehicleCount_keys = zero_count.
Proof. by destruct c. Qed.

Lemma resetCounts_spec c s :
  heap s !! vehicleCount s = Some (OCount c) ->
  exists l,
    heap s !! l = None /\ l <> vehicleCount s /\
    resetCounts s =
    (Ret tt,
     set_detectedVehicles l
       (set_heap (<[l := OArray []]> (<[vehicleCount s := OCount zero_count]> (heap s))) s)).
Proof.
  intros Hc.
  set (h1 := <[vehicleCount s := OCount zero_count]> (heap s)).
  assert (Hl : h1 !! fresh (dom h1) = None) by apply fresh_unused.
  assert (Hne : fresh (dom h1) <> vehicleCount s).
  { intros Heq. rewrite Heq in Hl. subst h1. by rewrite lookup_insert_eq in Hl. }
  exists (fresh (dom h1)). split; [|split; [done|]].
  { subst h1. by rewrite lookup_insert_ne in Hl. }
  unfold resetCounts.
  unfold bind at 1, this_vehicleCount at 1.
  bind_with (load_count_ok _ _ _ Hc).
  bind_with (clear_loop_spec VehicleCount_keys c s Hc).
  rewrite clear_all_keys. fold h1.
  unfold bind, alloc, assign_detectedVehicles. by destruct s.
Qed.

(** ** Initialisation *)

Lemma initialize_spec tf s :
  exists s',
    initialize tf s = (Ret tt, s') /\
    heap s' = heap s /\
    vehicleCount s' = vehicleCount s /\
    detectedVehicles s' = detectedVehicles s /\
    match acquire tf with
    | Ret gm => isModelLoaded s' = true /\ model s' = Some gm
    | Throw _ => isModelLoaded s' = false /\ model s' = model s
    end.
Proof.
  unfold initialize, acquire, try_catch, await.
  unfold bind at 1.
  destruct (ready tf) as [[]|e]; cycle 1.
  { eexists. split; [reflexivity|]. by destruct s. }
  unfold bind at 1, console_log at 1.
  unfold bind at 1, console_log at 1.
  unfold bind at 1.
  destruct (loadGraphModel tf MODEL_URL) as [gm|e].
  - eexists. split; [reflexivity|]. by destruct s.
  - eexists. split; [reflexivity|]. by destruct s.
Qed.

Lemma detectVehicles_without_model tf imageUri s :
  isModelLoaded s = false ->
  detectVehicles tf imageUri s = simulation_path s.
Proof.
  intros Hoff. unfold detectVehicles, simulation_path, try_catch.
  unfold bind at 1, this_isModelLoaded at 1.
  unfold bind at 1, this_model at 1.
  by rewrite Hoff.
Qed.

(** ** Sessions *)

Lemma new_service_consistent clk rnd : consistent (new_service clk rnd).
Proof.
  split.
  - exists zero_count. split; [|done]. apply lookup_insert_eq.
  - exists [], []. split; [|done]. simpl.
    rewrite lookup_insert_ne by done. apply lookup_insert_eq.
Qed.

Lemma consistent_extend h' s :
  heap s ⊆ h' -> consistent s -> consistent (set_heap h' s).
Proof.
  intros Hsub [(c & Hc & Hsum) (a & ds & Ha & Hds)]. split.
  - exists c. split; [|done]. destruct s; simpl in *. by eapply lookup_weaken.
  - exists a, ds. destruct s; simpl in *. split.
    + by eapply lookup_weaken.
    + by eapply vehicles_at_weaken.
Qed.

Lemma resetCounts_consistent s :
  consistent s -> consistent (snd (resetCounts s)).
Proof.
  intros [(c & Hc & _) _].
  destruct (resetCounts_spec c s Hc) as (l & Hl & Hne & ->). simpl. split.
  - exists zero_count. split; [|done]. destruct s; simpl in *.
    rewrite lookup_insert_ne by done. apply lookup_insert_eq.
  - exists [], []. split; [|done]. destruct s; simpl. apply lookup_insert_eq.
Qed.

Lemma perform_consistent call s :
  consistent s -> consistent (perform call s).
Proof.
  intros Hs. destruct call as [tf|tf imageUri| |]; simpl.
  - destruct (initialize_spec tf s) as (s' & -> & Hh & Hvc & Hdv & _). simpl.
    unfold consistent in *. by rewrite Hh, Hvc, Hdv.
  - by destruct (detectVehicles_consistent tf imageUri s Hs) as (l & s' & -> & Hs').
  - by apply resetCounts_consistent.
  - unfold processVideoFrame.
    destruct (simulateDetection_returns s) as (ds & s1 & Hrun & Hst).
    bind_with Hrun.
    destruct (new_array_spec ds s1) as (l & ls & h' & -> & Hsub & _). simpl.
    apply consistent_extend; [done|]. by eapply consistent_same_store.
Qed.

Lemma session_consistent calls : forall s,
  consistent s -> consistent (session calls s).
Proof.
  induction calls as [|call calls IH]; intros s Hs; [done|].
  simpl. apply IH. by apply perform_consistent.
Qed.

(** C1.  After any sequence of calls on a new service (initialisation,
    detection on the real or the simulated path, reset, video frames),
    the snapshot a caller reads has [total] equal to the sum of the seven
    per-category counts. *)
Theorem total_is_sum_of_counts (clk : nat -> Z) (rnd : nat -> Q) (calls : list Call) :
  exists c,
    snapshot (session calls (new_service clk rnd)) = Some c /\
    total c = sum_counts c.
Proof.
  destruct (session_consistent calls (new_service clk rnd) (new_service_consistent clk rnd))
    as [(c & Hc & Hsum) _].
  exists c. split; [by apply snapshot_reads|done].
Qed.

(** C2.  From any well-typed state, [resetCounts()] returns, after which
    the snapshot has every per-category count and the total at zero, and
    the history is empty. *)
Theorem reset_clears_counts_and_history (s : State) :
  well_typed s ->
  exists s' c,
    resetCounts s = (Ret tt, s') /\
    snapshot s' = Some c /\
    (forall t, get_count (KType t) c = 0%N) /\
    total c = 0%N /\
    history s' = Some [].
Proof.
  intros [(c & Hc) _].
  destruct (resetCounts_spec c s Hc) as (l & Hl & Hne & Hrun).
  eexists _, zero_count. split; [exact Hrun|]. split; [|split; [|split]].
  - apply snapshot_reads. destruct s; simpl in *.
    rewrite lookup_insert_ne by done. apply lookup_insert_eq.
  - by intros [].
  - done.
  - rewrite (history_reads []); [done|]. destruct s; simpl. apply lookup_insert_eq.
Qed.

(** The state used by the witnesses below is well typed. *)
Lemma recorded_once_well_typed : well_typed recorded_once.
Proof.
  split.
  - eexists. vm_compute. reflexivity.
  - eexists _, _. split; vm_compute; reflexivity.
Defined.

(** C2, witness: reset after one recorded detection. *)
Lemma reset_clears_counts_and_history_witness :
  well_typed recorded_once /\
  snapshot recorded_once <> Some zero_count /\
  exists s' c,
    resetCounts recorded_once = (Ret tt, s') /\
    snapshot s' = Some c /\
    (forall t, get_count (KType t) c = 0%N) /\
    total c = 0%N /\
    history s' = Some [].
Proof.
  split; [exact recorded_once_well_typed|].
  split; [vm_compute; discriminate|].
  exact (reset_clears_counts_and_history recorded_once recorded_once_well_typed).
Defined.

(** C7, as stated.  For a raw output with a single tensor, the decoder
    returns the empty list as an ordinary result and only writes to the
    console, and so does its caller [runRealDetection].  For a raw output
    whose box array is empty, it returns a detection whose coordinates
    are all [NaN]. *)
Lemma malformed_output_is_not_reported :
  well_formed [[1 # 2]]%Q = false /\
  postProcessDetections [[1 # 2]]%Q idle_service =
    (Ret [], set_console ["error: Post-processing failed: TypeError"] idle_service) /\
  runRealDetection
    (mkTFRuntime (Ret tt) (fun _ => Throw "unused") (fun _ => Element (Ret []))
                 (fun img _ => img))
    "frame.jpg"
    (set_model (Some (mkGraphModel (fun _ => Ret [[1 # 2]]%Q))) idle_service) =
    (Ret [],
     set_console ["error: Post-processing failed: TypeError"]
       (set_model (Some (mkGraphModel (fun _ => Ret [[1 # 2]]%Q))) idle_service)) /\
  well_formed [[]; [2]; [9 # 10]; [1]]%Q = false /\
  exists d s',
    postProcessDetections [[]; [2]; [9 # 10]; [1]]%Q idle_service = (Ret [d], s') /\
    bbox d = {| x := NaN; y := NaN; width := NaN; height := NaN |}.
Proof.
  split; [reflexivity|]. split; [reflexivity|]. split; [reflexivity|].
  split; [reflexivity|]. eexists _, _. split; reflexivity.
Qed.

(** C7, amended.  The decoder returns to its caller whatever the raw
    output is.  When fewer than four tensors are present it logs the
    failure with [console.error] and returns the empty list, changing
    nothing else; [runRealDetection] then returns the empty list as well,
    as it does for a frame without detections. *)
Theorem decoder_absorbs_missing_output (predictions : list Tensor) (s : State) :
  (exists ds s', postProcessDetections predictions s = (Ret ds, s') /\ same_store s s') /\
  (length predictions < 4 ->
     postProcessDetections predictions s =
       (Ret [], set_console (console s ++ ["error: Post-processing failed: TypeError"]) s) /\
     forall tf imageUri gm img,
       model s = Some gm ->
       fromPixels tf imageUri = Ret img ->
       predict gm (preprocessImage tf img) = Ret predictions ->
       runRealDetection tf imageUri s =
         (Ret [], set_console (console s ++ ["error: Post-processing failed: TypeError"]) s)).
Proof.
  split; [apply postProcessDetections_returns|].
  intros Hlen. split; [by apply postProcessDetections_missing|].
  intros tf imageUri gm img Hm Himg Hpred.
  unfold runRealDetection, try_catch, await.
  unfold bind at 1. rewrite (loadImage_loaded _ _ _ _ Himg).
  unfold bind at 1, this_model at 1. rewrite Hm.
  unfold bind at 1. rewrite Hpred.
  by bind_with (postProcessDetections_missing _ _ Hlen).
Qed.

(** C7, witness: a raw output without its count tensor. *)
Lemma decoder_absorbs_missing_output_witness :
  length [[1 # 2]; [2]; [9 # 10]]%Q < 4 /\
  postProcessDetections [[1 # 2]; [2]; [9 # 10]]%Q idle_service =
    (Ret [], set_console (console idle_service ++ ["error: Post-processing failed: TypeError"])
               idle_service).
Proof.
  assert (Hlen : length [[1 # 2]; [2]; [9 # 10]]%Q < 4) by (simpl; lia).
  split; [exact Hlen|].
  exact (proj1 (proj2 (decoder_absorbs_missing_output _ idle_service) Hlen)).
Defined.

(** C8.  [initialize()] always returns normally.  When model acquisition
    succeeds, [isRealModelLoaded()] answers true and the model is held;
    when it fails, at either step, [isRealModelLoaded()] answers false
    and every later [detectVehicles] call runs the simulation branch,
    whatever runtime and image it is given. *)
Theorem initialize_absorbs_failure (tf : TFRuntime) (s : State) :
  exists s',
    initialize tf s = (Ret tt, s') /\
    match acquire tf with
    | Ret gm =>
        isRealModelLoaded s' = (Ret true, s') /\ model s' = Some gm
    | Throw _ =>
        isRealModelLoaded s' = (Ret false, s') /\
        forall tf' imageUri, detectVehicles tf' imageUri s' = simulation_path s'
    end.
Proof.
  destruct (initialize_spec tf s) as (s' & Hrun & _ & _ & _ & Hflag).
  exists s'. split; [exact Hrun|].
  destruct (acquire tf) as [gm|e]; destruct Hflag as [Hloaded Hmodel].
  - split; [|done]. unfold isRealModelLoaded, this_isModelLoaded. by rewrite Hloaded.
  - split.
    + unfold isRealModelLoaded, this_isModelLoaded. by rewrite Hloaded.
    + intros tf' imageUri. by apply detectVehicles_without_model.
Qed.

(** C9.  Two detection calls made while the clock reads the same
    millisecond: the first detection of each call gets the same id, and
    both are in the history of the session. *)
Theorem ids_repeat_within_a_millisecond :
  map id <$> history (session [CDetectVehicles offline_runtime "a.jpg";
                                CDetectVehicles offline_runtime "b.jpg"]
                               same_millisecond_service)
  = Some ["vehicle_1700000000000_0"; "vehicle_1700000000000_0"; "vehicle_1700000000000_1"].
Proof. vm_compute. reflexivity. Qed.

(** ** Copies handed to callers *)

(** A write to a location the store does not know cannot be seen through
    the accessors. *)
Lemma fresh_write_invisible s l o :
  well_typed s -> heap s !! l = None ->
  snapshot (caller_write l o s) = snapshot s /\
  history (caller_write l o s) = history s.
Proof.
  intros [(c & Hc) (a & ds & Ha & Hds)] Hl.
  assert (Hvc : l <> vehicleCount s) by congruence.
  assert (Hdv : l <> detectedVehicles s) by congruence.
  split.
  - rewrite (snapshot_reads c s Hc). apply snapshot_reads.
    destruct s; simpl in *. by rewrite lookup_insert_ne.
  - rewrite (history_reads a s Ha), Hds.
    rewrite (history_reads a); cycle 1.
    { destruct s; simpl in *. by rewrite lookup_insert_ne. }
    destruct s; simpl in *.
    eapply vehicles_at_weaken; [|exact Hds]. by apply insert_subseteq.
Qed.

Lemma caller_write_twice l o o' s :
  caller_write l o (caller_write l o' s) = caller_write l o s.
Proof. unfold caller_write. destruct s; simpl. by rewrite insert_insert_eq. Qed.

(** C10, amended.  In a well-typed state each accessor returns a fresh
    object: a count object with the content of the store's, or an array
    with the same references as the store's.  The call changes nothing
    but the heap at that fresh location, and whatever the caller then
    writes to the returned object, the snapshot and the history read
    afterwards are what they were. *)
Theorem accessors_return_fresh_shallow_copies (s : State) :
  well_typed s ->
  (exists l c s',
     getVehicleCount s = (Ret l, s') /\
     heap s !! l = None /\
     s' = set_heap (<[l := OCount c]> (heap s)) s /\
     heap s !! vehicleCount s = Some (OCount c) /\
     snapshot s' = snapshot s /\ history s' = history s /\
     forall o, snapshot (caller_write l o s') = snapshot s /\
               history (caller_write l o s') = history s) /\
  (exists l a s',
     getDetectedVehicles s = (Ret l, s') /\
     heap s !! l = None /\
     s' = set_heap (<[l := OArray a]> (heap s)) s /\
     heap s !! detectedVehicles s = Some (OArray a) /\
     snapshot s' = snapshot s /\ history s' = history s /\
     forall o, snapshot (caller_write l o s') = snapshot s /\
               history (caller_write l o s') = history s).
Proof.
  intros Hs. pose proof Hs as [(c & Hc) (a & ds & Ha & Hds)].
  pose proof (fresh_unused (heap s)) as Hl.
  split.
  - exists (fresh (dom (heap s))), c, (caller_write (fresh (dom (heap s))) (OCount c) s).
    split; [by apply getVehicleCount_spec|]. split; [done|]. split; [done|].
    split; [done|].
    destruct (fresh_write_invisible s _ (OCount c) Hs Hl) as [Hsnap Hhist].
    split; [done|]. split; [done|].
    intros o. rewrite caller_write_twice. by apply fresh_write_invisible.
  - exists (fresh (dom (heap s))), a, (caller_write (fresh (dom (heap s))) (OArray a) s).
    split; [by apply getDetectedVehicles_spec|]. split; [done|]. split; [done|].
    split; [done|].
    destruct (fresh_write_invisible s _ (OArray a) Hs Hl) as [Hsnap Hhist].
    split; [done|]. split; [done|].
    intros o. rewrite caller_write_twice. by apply fresh_write_invisible.
Qed.

(** C10, witness: the count accessor after one recorded detection. *)
Lemma accessors_return_fresh_shallow_copies_witness :
  well_typed recorded_once /\
  (exists l c s',
     getVehicleCount recorded_once = (Ret l, s') /\
     heap recorded_once !! l = None /\
     s' = set_heap (<[l := OCount c]> (heap recorded_once)) recorded_once /\
     heap recorded_once !! vehicleCount recorded_once = Some (OCount c) /\
     snapshot s' = snapshot recorded_once /\ history s' = history recorded_once /\
     forall o, snapshot (caller_write l o s') = snapshot recorded_once /\
               history (caller_write l o s') = history recorded_once).
Proof.
  split; [exact recorded_once_well_typed|].
  exact (proj1 (accessors_return_fresh_shallow_copies recorded_once recorded_once_well_typed)).
Defined.

(** C10, as stated.  After one recorded detection, the array returned by
    [getDetectedVehicles()] refers to the same detection object as the
    store's array; assigning 0 to the confidence of that object through
    the returned array changes the history read afterwards. *)
Lemma returned_history_shares_detections :
  fst (getDetectedVehicles recorded_once) = Ret 5%positive /\
  heap history_fetched !! 5%positive = Some (OArray [3%positive]) /\
  heap recorded_once !! detectedVehicles recorded_once = Some (OArray [3%positive]) /\
  map confidence <$> history history_fetched = Some [(170 # 200)%Q] /\
  map confidence <$> history (assign_confidence 3%positive 0 history_fetched) = Some [0%Q].
Proof. repeat split; vm_compute; reflexivity. Qed.

(** * Further properties of the service *)

(** The state used by the witnesses of the real path is well typed. *)
Lemma ready_service_well_typed : well_typed ready_service.
Proof.
  split.
  - eexists. vm_compute. reflexivity.
  - eexists _, _. split; vm_compute; reflexivity.
Defined.

(** ** Observations depend on the store only *)

Lemma snapshot_ext s s' :
  heap s' = heap s -> vehicleCount s' = vehicleCount s -> snapshot s' = snapshot s.
Proof.
  intros Hh Hvc. unfold snapshot, getVehicleCount, bind, this_vehicleCount,
    load_count, bind, load, alloc.
  rewrite Hh, Hvc. destruct (heap s !! vehicleCount s) as [[c|a|d]|]; try done.
  simpl. destruct s, s'; simpl in *. by rewrite Hh.
Qed.

Lemma history_ext s s' :
  heap s' = heap s -> detectedVehicles s' = detectedVehicles s -> history s' = history s.
Proof.
  intros Hh Hdv. unfold history, getDetectedVehicles, bind, this_detectedVehicles,
    load_array, bind, load, alloc.
  rewrite Hh, Hdv. destruct (heap s !! detectedVehicles s) as [[c|a|d]|]; try done.
  simpl. destruct s, s'; simpl in *. by rewrite Hh.
Qed.

Lemma read_array_fresh_result s l a ds :
  heap s !! l = Some (OArray a) -> vehicles_at (heap s) a = Some ds ->
  read_array s l = Some ds.
Proof. intros Hl Ha. unfold read_array. by rewrite Hl. Qed.

(** ** Counting a batch *)

Lemma tally_app a b c : tally (a ++ b) c = tally b (tally a c).
Proof. unfold tally. apply foldl_app. Qed.

Lemma count_type_cons t d ds :
  count_type t (d :: ds) =
  ((if decide (type d = t) then 1 else 0) + count_type t ds)%N.
Proof.
  unfold count_type. rewrite filter_cons.
  destruct (decide (type d = t)); simpl; lia.
Qed.

Lemma incr_step_count t ty c :
  get_count (KType t) (incr KTotal (incr (KType ty) c)) =
  (get_count (KType t) c + (if decide (ty = t) then 1 else 0))%N.
Proof. destruct c, ty, t; simpl; lia. Qed.

Lemma incr_step_total ty c :
  total (incr KTotal (incr (KType ty) c)) = (total c + 1)%N.
Proof. by destruct c, ty. Qed.

Lemma tally_counts ds : forall c,
  total (tally ds c) = (total c + N.of_nat (length ds))%N /\
  forall t, get_count (KType t) (tally ds c) = (get_count (KType t) c + count_type t ds)%N.
Proof.
  induction ds as [|d ds IH]; intros c.
  - split; [simpl; lia|]. intros t. unfold count_type. simpl. lia.
  - destruct (IH (incr KTotal (incr (KType (type d)) c))) as [Htot Hcat].
    change (tally (d :: ds) c) with (tally ds (incr KTotal (incr (KType (type d)) c))).
    split.
    + rewrite Htot, incr_step_total. simpl. lia.
    + intros t. rewrite Hcat, incr_step_count, count_type_cons. lia.
Qed.

(** ** One detection cycle *)

Lemma well_typed_same_store s s' :
  same_store s s' -> well_typed s -> well_typed s'.
Proof.
  intros (_ & Hdv & _ & Hvc & Hh & _) H. unfold well_typed in *.
  by rewrite Hdv, Hvc, Hh.
Qed.

(** What [record_batch] does to a well-typed store. *)
Lemma record_batch_effect ds c a old s :
  heap s !! vehicleCount s = Some (OCount c) ->
  heap s !! detectedVehicles s = Some (OArray a) ->
  vehicles_at (heap s) a = Some old ->
  exists l ls h',
    record_batch ds s = (Ret l, set_heap h' s) /\
    heap s !! l = None /\
    h' !! l = Some (OArray ls) /\
    vehicles_at h' ls = Some ds /\
    h' !! vehicleCount s = Some (OCount (tally ds c)) /\
    h' !! detectedVehicles s = Some (OArray (a ++ ls)) /\
    vehicles_at h' (a ++ ls) = Some (old ++ ds).
Proof.
  intros Hc Ha Hold.
  destruct (record_batch_spec ds c a old s Hc Ha Hold)
    as (l & ls & h' & Hrun & Hl & Hl' & Hc' & Ha' & Hall).
  exists l, ls, h'. repeat (split; [done|]). split; [|done].
  apply vehicles_at_Some in Hall. apply vehicles_at_Some in Hold.
  apply vehicles_at_Some.
  apply Forall2_app_inv in Hall as [_ ?]; [done|].
  by eapply Forall2_length.
Qed.

(** A write to a location that is neither a private object nor a
    recorded detection cannot be seen through the accessors. *)
Lemma foreign_write_invisible s l o c a ds :
  heap s !! vehicleCount s = Some (OCount c) ->
  heap s !! detectedVehicles s = Some (OArray a) ->
  vehicles_at (heap s) a = Some ds ->
  l <> vehicleCount s -> l <> detectedVehicles s ->
  vehicle_of (heap s !! l) = None ->
  snapshot (caller_write l o s) = snapshot s /\
  history (caller_write l o s) = history s.
Proof.
  intros Hc Ha Hds Hvc Hdv Hl. split.
  - rewrite (snapshot_reads c s Hc). apply snapshot_reads.
    destruct s; simpl in *. by rewrite lookup_insert_ne.
  - rewrite (history_reads a s Ha), Hds.
    rewrite (history_reads a); cycle 1.
    { destruct s; simpl in *. by rewrite lookup_insert_ne. }
    destruct s; simpl in *.
    apply vehicles_at_Some. apply vehicles_at_Some in Hds.
    eapply Forall2_impl; [exact Hds|]. intros l' d Hl'. simpl in Hl'.
    rewrite lookup_insert_ne; [done|]. intros ->. by rewrite Hl' in Hl.
Qed.

(** [record_batch] as its caller and later readers see it. *)
Lemma record_batch_observed ds s :
  well_typed s ->
  exists l s' old c,
    record_batch ds s = (Ret l, s') /\
    console s' = console s /\
    heap s !! l = None /\
    history s = Some old /\
    snapshot s = Some c /\
    read_array s' l = Some ds /\
    history s' = Some (old ++ ds) /\
    snapshot s' = Some (tally ds c) /\
    well_typed s' /\
    (forall o, snapshot (caller_write l o s') = snapshot s' /\
               history (caller_write l o s') = history s').
Proof.
  intros [(c & Hc) (a & old & Ha & Hold)].
  destruct (record_batch_effect ds c a old s Hc Ha Hold)
    as (l & ls & h' & Hrun & Hl & Hl' & Hls & Hc' & Ha' & Hall).
  exists l, (set_heap h' s), old, c.
  assert (Hc2 : heap (set_heap h' s) !! vehicleCount (set_heap h' s)
                = Some (OCount (tally ds c))) by (by destruct s).
  assert (Ha2 : heap (set_heap h' s) !! detectedVehicles (set_heap h' s)
                = Some (OArray (a ++ ls))) by (by destruct s).
  assert (Hall2 : vehicles_at (heap (set_heap h' s)) (a ++ ls) = Some (old ++ ds))
    by (by destruct s).
  split; [done|]. split; [by destruct s|].
  split; [done|].
  split; [by rewrite (history_reads a s Ha)|].
  split; [by apply snapshot_reads|].
  split; [unfold read_array; destruct s; simpl in *; by rewrite Hl'|].
  split; [by rewrite (history_reads _ _ Ha2)|].
  split; [by apply snapshot_reads|].
  split; [split; eauto|].
  intros o. eapply foreign_write_invisible; eauto.
  - destruct s; simpl in *. congruence.
  - destruct s; simpl in *. congruence.
  - destruct s; simpl in *. by rewrite Hl'.
Qed.

Lemma detectVehicles_real_branch tf imageUri s ds s1 l s' :
  isModelLoaded s = true -> is_Some (model s) ->
  runRealDetection tf imageUri s = (Ret ds, s1) ->
  record_batch ds s1 = (Ret l, s') ->
  detectVehicles tf imageUri s = (Ret l, s').
Proof.
  intros Hon Hm Hrun Hrec. unfold detectVehicles, try_catch.
  unfold bind at 1, this_isModelLoaded at 1.
  unfold bind at 1, this_model at 1.
  rewrite Hon, (bool_decide_eq_true_2 _ Hm). simpl.
  bind_with Hrun. fold (record_batch ds). by rewrite Hrec.
Qed.

Lemma detectVehicles_simulated_branch tf imageUri s ds s1 l s' :
  isModelLoaded s && bool_decide (is_Some (model s)) = false ->
  simulateDetection
    (set_console (console s ++ ["log: Using simulation mode - model not loaded"]) s)
  = (Ret ds, s1) ->
  record_batch ds s1 = (Ret l, s') ->
  detectVehicles tf imageUri s = (Ret l, s').
Proof.
  intros Hoff Hrun Hrec. unfold detectVehicles, try_catch.
  unfold bind at 1, this_isModelLoaded at 1.
  unfold bind at 1, this_model at 1.
  rewrite Hoff.
  unfold bind at 1, console_log at 1. cbn [String.append].
  bind_with Hrun. fold (record_batch ds). by rewrite Hrec.
Qed.

(** A detection cycle in one piece: some producer yields a batch without
    touching the store, and the batch is recorded. *)
Lemma detectVehicles_effect tf imageUri s :
  well_typed s ->
  exists ds s1 l s',
    same_store s s1 /\
    record_batch ds s1 = (Ret l, s') /\
    detectVehicles tf imageUri s = (Ret l, s').
Proof.
  intros Hs.
  destruct (isModelLoaded s && bool_decide (is_Some (model s))) eqn:Hcond.
  - apply andb_prop in Hcond as [Hon Hm]. apply bool_decide_eq_true_1 in Hm.
    destruct (runRealDetection_returns tf imageUri s) as (ds & s1 & Hrun & Hst).
    destruct (record_batch_observed ds s1) as (l & s' & old & c & Hrec & _).
    { by eapply well_typed_same_store. }
    exists ds, s1, l, s'. split; [done|]. split; [done|].
    by eapply detectVehicles_real_branch.
  - set (s0 := set_console (console s ++ ["log: Using simulation mode - model not loaded"]) s).
    destruct (simulateDetection_returns s0) as (ds & s1 & Hrun & Hst).
    assert (Hst0 : same_store s s1).
    { eapply same_store_trans; [|exact Hst]. apply same_store_console. }
    destruct (record_batch_observed ds s1) as (l & s' & old & c & Hrec & _).
    { by eapply well_typed_same_store. }
    exists ds, s1, l, s'. split; [done|]. split; [done|].
    by eapply detectVehicles_simulated_branch.
Qed.

Lemma snapshot_same_store s s' : same_store s s' -> snapshot s' = snapshot s.
Proof. intros (_ & _ & _ & Hvc & Hh & _). by apply snapshot_ext. Qed.

Lemma history_same_store s s' : same_store s s' -> history s' = history s.
Proof. intros (_ & Hdv & _ & _ & Hh & _). by apply history_ext. Qed.

(** X1.  A detection cycle from a well-typed state returns a new array;
    the history read afterwards is the old history followed by the
    detections of that array, in order, and the array is not the
    store's: whatever the caller writes to it, snapshot and history stay
    as they are. *)
Theorem detectVehicles_appends_batch (tf : TFRuntime) (imageUri : string) (s : State) :
  well_typed s ->
  exists l s' old ds,
    detectVehicles tf imageUri s = (Ret l, s') /\
    heap s !! l = None /\
    history s = Some old /\
    read_array s' l = Some ds /\
    history s' = Some (old ++ ds) /\
    (forall o, snapshot (caller_write l o s') = snapshot s' /\
               history (caller_write l o s') = history s').
Proof.
  intros Hs.
  destruct (detectVehicles_effect tf imageUri s Hs) as (ds & s1 & l & s' & Hst & Hrec & Hrun).
  destruct (record_batch_observed ds s1) as (l' & s'' & old & c & Hrec' & _ & Hl & Hold & _ & Hread & Hhist & _ & _ & Hfresh).
  { by eapply well_typed_same_store. }
  rewrite Hrec in Hrec'. injection Hrec' as <- <-.
  exists l, s', old, ds. split; [done|].
  split; [by rewrite <- (proj1 (proj2 (proj2 (proj2 (proj2 Hst)))))|].
  split; [by rewrite <- (history_same_store _ _ Hst)|].
  done.
Qed.

(** Witness for [detectVehicles_appends_batch]. *)
Lemma detectVehicles_appends_batch_witness :
  well_typed recorded_once /\
  exists l s' old ds,
    detectVehicles offline_runtime "next.jpg" recorded_once = (Ret l, s') /\
    heap recorded_once !! l = None /\
    history recorded_once = Some old /\
    read_array s' l = Some ds /\
    history s' = Some (old ++ ds) /\
    (forall o, snapshot (caller_write l o s') = snapshot s' /\
               history (caller_write l o s') = history s').
Proof.
  split; [exact recorded_once_well_typed|].
  exact (detectVehicles_appends_batch offline_runtime "next.jpg" recorded_once
           recorded_once_well_typed).
Defined.

(** X2.  A detection cycle adds to [total] the number of detections it
    returns, and to the count of every category the number of returned
    detections of that category. *)
Theorem detectVehicles_counts_batch (tf : TFRuntime) (imageUri : string) (s : State) :
  well_typed s ->
  exists l s' c c' ds,
    detectVehicles tf imageUri s = (Ret l, s') /\
    read_array s' l = Some ds /\
    snapshot s = Some c /\
    snapshot s' = Some c' /\
    total c' = (total c + N.of_nat (length ds))%N /\
    forall t, get_count (KType t) c' = (get_count (KType t) c + count_type t ds)%N.
Proof.
  intros Hs.
  destruct (detectVehicles_effect tf imageUri s Hs) as (ds & s1 & l & s' & Hst & Hrec & Hrun).
  destruct (record_batch_observed ds s1) as (l' & s'' & old & c & Hrec' & _ & _ & _ & Hsnap & Hread & _ & Hsnap' & _).
  { by eapply well_typed_same_store. }
  rewrite Hrec in Hrec'. injection Hrec' as <- <-.
  exists l, s', c, (tally ds c), ds.
  split; [done|]. split; [done|].
  split; [by rewrite <- (snapshot_same_store _ _ Hst)|].
  split; [done|]. apply tally_counts.
Qed.

(** Witness for [detectVehicles_counts_batch]. *)
Lemma detectVehicles_counts_batch_witness :
  well_typed recorded_once /\
  exists l s' c c' ds,
    detectVehicles offline_runtime "next.jpg" recorded_once = (Ret l, s') /\
    read_array s' l = Some ds /\
    snapshot recorded_once = Some c /\
    snapshot s' = Some c' /\
    total c' = (total c + N.of_nat (length ds))%N /\
    forall t, get_count (KType t) c' = (get_count (KType t) c + count_type t ds)%N.
Proof.
  split; [exact recorded_once_well_typed|].
  exact (detectVehicles_counts_batch offline_runtime "next.jpg" recorded_once
           recorded_once_well_typed).
Defined.

(** ** Failures on the real path *)

Lemma runRealDetection_load_failure tf imageUri e s :
  fromPixels tf imageUri = Throw e ->
  runRealDetection tf imageUri s =
  (Ret [],
   set_console (console s ++ load_failure_log tf imageUri ++
                ["error: Real detection failed: " +:+ e]) s).
Proof.
  intros Himg. unfold runRealDetection, try_catch.
  unfold bind at 1. rewrite (loadImage_failed _ _ _ _ Himg).
  unfold bind, console_error, ret. simpl. rewrite <- app_assoc. by destruct s.
Qed.

Lemma runRealDetection_inference_failure tf imageUri gm img e s :
  model s = Some gm ->
  fromPixels tf imageUri = Ret img ->
  predict gm (preprocessImage tf img) = Throw e ->
  runRealDetection tf imageUri s =
  (Ret [], set_console (console s ++ ["error: Real detection failed: " +:+ e]) s).
Proof.
  intros Hm Himg Hpred. unfold runRealDetection, try_catch, await.
  unfold bind at 1. rewrite (loadImage_loaded _ _ _ _ Himg).
  unfold bind at 1, this_model at 1. rewrite Hm.
  unfold bind at 1. by rewrite Hpred.
Qed.

Lemma runRealDetection_success tf imageUri gm img predictions s :
  model s = Some gm ->
  fromPixels tf imageUri = Ret img ->
  predict gm (preprocessImage tf img) = Ret predictions ->
  runRealDetection tf imageUri s = postProcessDetections predictions s.
Proof.
  intros Hm Himg Hpred. unfold runRealDetection, try_catch, await.
  unfold bind at 1. rewrite (loadImage_loaded _ _ _ _ Himg).
  unfold bind at 1, this_model at 1. rewrite Hm.
  unfold bind at 1. rewrite Hpred.
  destruct (postProcessDetections_returns predictions s) as (ds & s' & Hrun & _).
  bind_with Hrun. by rewrite Hrun.
Qed.

(** An empty batch leaves counts and history as they were. *)
Lemma record_batch_empty s :
  well_typed s ->
  exists l s',
    record_batch [] s = (Ret l, s') /\
    console s' = console s /\
    read_array s' l = Some [] /\
    snapshot s' = snapshot s /\
    history s' = history s.
Proof.
  intros Hs.
  destruct (record_batch_observed [] s Hs)
    as (l & s' & old & c & Hrec & Hcon & _ & Hold & Hsnap & Hread & Hhist & Hsnap' & _).
  exists l, s'. rewrite Hsnap, Hold, Hhist, Hsnap', app_nil_r. done.
Qed.

(** X3.  With a model loaded, a frame whose image cannot be had or
    whose inference fails is absorbed: [detectVehicles] returns an empty
    array as an ordinary result and leaves the counts and the history as
    they were.  It writes a "Real detection failed" line to the console;
    when the image cannot be had because [new Image()] throws, a
    "Failed to load image" line of [loadImage] comes before it, and in
    every other case that line is the only one. *)
Theorem detectVehicles_absorbs_real_failure
    (tf : TFRuntime) (imageUri : string) (gm : GraphModel) (e : string) (s : State) :
  well_typed s ->
  isModelLoaded s = true ->
  model s = Some gm ->
  (fromPixels tf imageUri = Throw e \/
   exists img, fromPixels tf imageUri = Ret img /\
               predict gm (preprocessImage tf img) = Throw e) ->
  exists l s',
    detectVehicles tf imageUri s = (Ret l, s') /\
    read_array s' l = Some [] /\
    console s' =
      console s ++
      match image tf imageUri with
      | NoElement _ => ["error: Failed to load image: " +:+ e;
                        "error: Real detection failed: " +:+ e]
      | Element _ => ["error: Real detection failed: " +:+ e]
      end /\
    snapshot s' = snapshot s /\
    history s' = history s.
Proof.
  intros Hs Hon Hm Hfail.
  set (lines := match image tf imageUri with
                | NoElement _ => ["error: Failed to load image: " +:+ e;
                                  "error: Real detection failed: " +:+ e]
                | Element _ => ["error: Real detection failed: " +:+ e]
                end).
  set (s1 := set_console (console s ++ lines) s).
  assert (Hrun : runRealDetection tf imageUri s = (Ret [], s1)).
  { destruct Hfail as [Himg|(img & Himg & Hpred)].
    - rewrite (runRealDetection_load_failure _ _ _ _ Himg).
      unfold s1, lines, load_failure_log. unfold fromPixels in Himg.
      destruct (image tf imageUri) as [e'|pixels]; [|done].
      by injection Himg as ->.
    - rewrite (runRealDetection_inference_failure _ _ _ _ _ _ Hm Himg Hpred).
      unfold s1, lines. unfold fromPixels in Himg.
      by destruct (image tf imageUri) as [e'|pixels]. }
  assert (Hst : same_store s s1) by apply same_store_console.
  destruct (record_batch_empty s1) as (l & s' & Hrec & Hcon & Hread & Hsnap & Hhist).
  { by eapply well_typed_same_store. }
  exists l, s'. split.
  { eapply detectVehicles_real_branch; eauto; by rewrite Hm. }
  split; [done|]. split; [by rewrite Hcon; destruct s|].
  split.
  - by rewrite Hsnap, (snapshot_same_store _ _ Hst).
  - by rewrite Hhist, (history_same_store _ _ Hst).
Qed.

(** Witness for [detectVehicles_absorbs_real_failure]: an image whose
    promise is rejected, and a runtime without an [Image] constructor. *)
Lemma detectVehicles_absorbs_real_failure_witness :
  well_typed ready_service /\
  isModelLoaded ready_service = true /\
  model ready_service = Some car_model /\
  fromPixels offline_runtime "frame.jpg" = Throw "no image" /\
  fromPixels headless_runtime "frame.jpg" = Throw "ReferenceError" /\
  (exists l s',
     detectVehicles offline_runtime "frame.jpg" ready_service = (Ret l, s') /\
     read_array s' l = Some [] /\
     console s' = console ready_service ++ ["error: Real detection failed: no image"] /\
     snapshot s' = snapshot ready_service /\
     history s' = history ready_service) /\
  (exists l s',
     detectVehicles headless_runtime "frame.jpg" ready_service = (Ret l, s') /\
     read_array s' l = Some [] /\
     console s' = console ready_service ++
                  ["error: Failed to load image: ReferenceError";
                   "error: Real detection failed: ReferenceError"] /\
     snapshot s' = snapshot ready_service /\
     history s' = history ready_service).
Proof.
  assert (Hon : isModelLoaded ready_service = true) by reflexivity.
  assert (Hm : model ready_service = Some car_model) by reflexivity.
  assert (Himg : fromPixels offline_runtime "frame.jpg" = Throw "no image") by reflexivity.
  assert (Himg' : fromPixels headless_runtime "frame.jpg" = Throw "ReferenceError")
    by reflexivity.
  split; [exact ready_service_well_typed|]. split; [exact Hon|].
  split; [exact Hm|]. split; [exact Himg|]. split; [exact Himg'|]. split.
  - exact (detectVehicles_absorbs_real_failure offline_runtime "frame.jpg" car_model
             "no image" ready_service ready_service_well_typed Hon Hm (or_introl Himg)).
  - exact (detectVehicles_absorbs_real_failure headless_runtime "frame.jpg" car_model
             "ReferenceError" ready_service ready_service_well_typed Hon Hm
             (or_introl Himg')).
Defined.

(** X4.  With a model loaded, a readable image and a successful
    inference, [detectVehicles] records exactly what the decoder makes of
    the model's output for the preprocessed image: the returned array
    holds the decoded detections, and they are appended to the history
    and counted. *)
Theorem detectVehicles_records_decoded
    (tf : TFRuntime) (imageUri : string) (gm : GraphModel) (img : Tensor)
    (predictions : list Tensor) (ds : list DetectedVehicle) (s s1 : State) :
  well_typed s ->
  isModelLoaded s = true ->
  model s = Some gm ->
  fromPixels tf imageUri = Ret img ->
  predict gm (preprocessImage tf img) = Ret predictions ->
  postProcessDetections predictions s = (Ret ds, s1) ->
  exists l s' old c,
    detectVehicles tf imageUri s = (Ret l, s') /\
    read_array s' l = Some ds /\
    history s = Some old /\ history s' = Some (old ++ ds) /\
    snapshot s = Some c /\ snapshot s' = Some (tally ds c) /\
    console s' = console s1.
Proof.
  intros Hs Hon Hm Himg Hpred Hdec.
  assert (Hrun : runRealDetection tf imageUri s = (Ret ds, s1)).
  { by rewrite (runRealDetection_success _ _ _ _ _ _ Hm Himg Hpred). }
  destruct (postProcessDetections_returns predictions s) as (ds' & s1' & Hdec' & Hst).
  rewrite Hdec in Hdec'. injection Hdec' as <- <-.
  destruct (record_batch_observed ds s1)
    as (l & s' & old & c & Hrec & Hcon & _ & Hold & Hsnap & Hread & Hhist & Hsnap' & _).
  { by eapply well_typed_same_store. }
  exists l, s', old, c. split.
  { eapply detectVehicles_real_branch; eauto; by rewrite Hm. }
  split; [done|].
  split; [by rewrite <- (history_same_store _ _ Hst)|]. split; [done|].
  split; [by rewrite <- (snapshot_same_store _ _ Hst)|]. done.
Qed.

(** Witness for [detectVehicles_records_decoded]. *)
Lemma detectVehicles_records_decoded_witness :
  well_typed ready_service /\
  postProcessDetections single_car_output ready_service =
    (Ret car_batch,
     snd (postProcessDetections single_car_output ready_service)) /\
  exists l s' old c,
    detectVehicles camera_runtime "frame.jpg" ready_service = (Ret l, s') /\
    read_array s' l =
      Some car_batch /\
    history ready_service = Some old /\
    history s' =
      Some (old ++ car_batch) /\
    snapshot ready_service = Some c /\
    snapshot s' =
      Some (tally car_batch c) /\
    console s' = console (snd (postProcessDetections single_car_output ready_service)).
Proof.
  assert (Hdec : postProcessDetections single_car_output ready_service =
    (Ret car_batch,
     snd (postProcessDetections single_car_output ready_service)))
    by (vm_compute; reflexivity).
  split; [exact ready_service_well_typed|]. split; [exact Hdec|].
  exact (detectVehicles_records_decoded camera_runtime "frame.jpg" car_model
           [0; 255]%Q single_car_output _ ready_service _
           ready_service_well_typed eq_refl eq_refl eq_refl eq_refl Hdec).
Defined.

(** ** Video frames *)

(** X5.  [processVideoFrame] hands out what the simulation generator
    yields in the current state, as a new array, and records nothing:
    counts and history are as before. *)
Theorem processVideoFrame_records_nothing (s : State) :
  well_typed s ->
  exists l s' ds s1,
    processVideoFrame s = (Ret l, s') /\
    simulateDetection s = (Ret ds, s1) /\
    read_array s' l = Some ds /\
    heap s !! l = None /\
    snapshot s' = snapshot s /\
    history s' = history s.
Proof.
  intros Hs. unfold processVideoFrame.
  destruct (simulateDetection_returns s) as (ds & s1 & Hrun & Hst).
  bind_with Hrun.
  destruct (new_array_spec ds s1) as (l & ls & h' & Hnew & Hsub & Hl & Hl' & Hls).
  rewrite Hnew. exists l, (set_heap h' s1), ds, s1.
  pose proof (well_typed_same_store _ _ Hst Hs) as [(c & Hc) (a & old & Ha & Hold)].
  split; [done|]. split; [done|].
  split; [unfold read_array; destruct s1; simpl in *; by rewrite Hl'|].
  split; [by rewrite <- (proj1 (proj2 (proj2 (proj2 (proj2 Hst)))))|].
  rewrite <- (snapshot_same_store _ _ Hst), <- (history_same_store _ _ Hst).
  split.
  - rewrite (snapshot_reads c s1 Hc). apply snapshot_reads.
    destruct s1; simpl in *. by eapply lookup_weaken.
  - rewrite (history_reads a s1 Ha), Hold.
    rewrite (history_reads a); destruct s1; simpl in *.
    + by eapply vehicles_at_weaken.
    + by eapply lookup_weaken.
Qed.

(** Witness for [processVideoFrame_records_nothing]. *)
Lemma processVideoFrame_records_nothing_witness :
  well_typed recorded_once /\
  exists l s' ds s1,
    processVideoFrame recorded_once = (Ret l, s') /\
    simulateDetection recorded_once = (Ret ds, s1) /\
    read_array s' l = Some ds /\
    heap recorded_once !! l = None /\
    snapshot s' = snapshot recorded_once /\
    history s' = history recorded_once.
Proof.
  split; [exact recorded_once_well_typed|].
  exact (processVideoFrame_records_nothing recorded_once recorded_once_well_typed).
Defined.

(** ** Counts and history stay in step *)

Lemma accounted_well_typed s : accounted s -> well_typed s.
Proof. intros (c & a & ds & Hc & Ha & Hds & _). split; eauto. Qed.

Lemma accounted_same_store s s' : same_store s s' -> accounted s -> accounted s'.
Proof.
  intros (_ & Hdv & _ & Hvc & Hh & _) H. unfold accounted in *.
  by rewrite Hdv, Hvc, Hh.
Qed.

Lemma accounted_new_service clk rnd : accounted (new_service clk rnd).
Proof.
  exists zero_count, [], []. split; [apply lookup_insert_eq|].
  split; [|done]. simpl. rewrite lookup_insert_ne by done. apply lookup_insert_eq.
Qed.

Lemma record_batch_accounted ds s l s' :
  accounted s -> record_batch ds s = (Ret l, s') -> accounted s'.
Proof.
  intros (c & a & old & Hc & Ha & Hold & ->) Hrec.
  destruct (record_batch_effect ds _ a old s Hc Ha Hold)
    as (l' & ls & h' & Hrec' & _ & _ & _ & Hc' & Ha' & Hall).
  rewrite Hrec in Hrec'. injection Hrec' as -> ->.
  exists (tally (old ++ ds) zero_count), (a ++ ls), (old ++ ds).
  rewrite tally_app. by destruct s.
Qed.

Lemma perform_accounted call s : accounted s -> accounted (perform call s).
Proof.
  intros Hs. destruct call as [tf|tf imageUri| |]; simpl.
  - destruct (initialize_spec tf s) as (s' & -> & Hh & Hvc & Hdv & _). simpl.
    unfold accounted in *. by rewrite Hh, Hvc, Hdv.
  - destruct (detectVehicles_effect tf imageUri s (accounted_well_typed _ Hs))
      as (ds & s1 & l & s' & Hst & Hrec & ->). simpl.
    eapply record_batch_accounted; [|exact Hrec]. by eapply accounted_same_store.
  - destruct Hs as (c & a & old & Hc & _).
    destruct (resetCounts_spec c s Hc) as (l & Hl & Hne & ->). simpl.
    exists zero_count, [], []. destruct s; simpl in *.
    split; [rewrite lookup_insert_ne by done; apply lookup_insert_eq|].
    split; [apply lookup_insert_eq|done].
  - unfold processVideoFrame.
    destruct (simulateDetection_returns s) as (ds & s1 & Hrun & Hst).
    bind_with Hrun.
    destruct (new_array_spec ds s1) as (l & ls & h' & -> & Hsub & _). simpl.
    destruct (accounted_same_store _ _ Hst Hs) as (c & a & old & Hc & Ha & Hold & Heq).
    exists c, a, old. destruct s1; simpl in *.
    split; [by eapply lookup_weaken|]. split; [by eapply lookup_weaken|].
    split; [by eapply vehicles_at_weaken|done].
Qed.

Lemma session_accounted calls : forall s, accounted s -> accounted (session calls s).
Proof.
  induction calls as [|call calls IH]; intros s Hs; [done|].
  simpl. apply IH. by apply perform_accounted.
Qed.

(** X6.  After any sequence of calls on a new service, the counts are an
    account of the history: [total] is the number of recorded detections
    and the count of each category is the number of recorded detections
    of that category. *)
Theorem counts_account_for_history (clk : nat -> Z) (rnd : nat -> Q) (calls : list Call) :
  exists c ds,
    snapshot (session calls (new_service clk rnd)) = Some c /\
    history (session calls (new_service clk rnd)) = Some ds /\
    total c = N.of_nat (length ds) /\
    forall t, get_count (KType t) c = count_type t ds.
Proof.
  destruct (session_accounted calls _ (accounted_new_service clk rnd))
    as (c & a & ds & Hc & Ha & Hds & ->).
  exists (tally ds zero_count), ds.
  split; [by apply snapshot_reads|].
  split; [by rewrite (history_reads a _ Ha)|].
  destruct (tally_counts ds zero_count) as [Htot Hcat].
  split; [rewrite Htot; simpl; lia|].
  intros t. rewrite Hcat. by destruct t.
Qed.

(** ** Initialisation keeps the tally *)

(** X7.  [initialize()] changes neither the counts nor the history,
    whatever the outcome of model acquisition and whatever the state. *)
Theorem initialize_keeps_counts_and_history (tf : TFRuntime) (s : State) :
  snapshot (snd (initialize tf s)) = snapshot s /\
  history (snd (initialize tf s)) = history s.
Proof.
  destruct (initialize_spec tf s) as (s' & -> & Hh & Hvc & Hdv & _). simpl.
  split; [by apply snapshot_ext|by apply history_ext].
Qed.

(** X8.  [runRealDetection] never throws and never touches the service's
    fields or the heap, whatever the image source and the model do; it
    returns the empty list when the image cannot be read, when no model
    is held, or when inference fails. *)
Theorem runRealDetection_absorbs_everything (tf : TFRuntime) (imageUri : string) (s : State) :
  (exists ds s', runRealDetection tf imageUri s = (Ret ds, s') /\ same_store s s') /\
  (forall e, fromPixels tf imageUri = Throw e ->
     fst (runRealDetection tf imageUri s) = Ret []) /\
  (model s = None -> fst (runRealDetection tf imageUri s) = Ret []) /\
  (forall gm img e,
     model s = Some gm -> fromPixels tf imageUri = Ret img ->
     predict gm (preprocessImage tf img) = Throw e ->
     fst (runRealDetection tf imageUri s) = Ret []).
Proof.
  split; [apply runRealDetection_returns|]. split; [|split].
  - intros e He. by rewrite (runRealDetection_load_failure _ _ _ _ He).
  - intros Hm. unfold runRealDetection, try_catch, await.
    unfold bind at 1. destruct (fromPixels tf imageUri) as [img|e] eqn:Himg.
    + rewrite (loadImage_loaded _ _ _ _ Himg).
      unfold bind at 1, this_model at 1. by rewrite Hm.
    + by rewrite (loadImage_failed _ _ _ _ Himg).
  - intros gm img e Hm Himg Hpred.
    by rewrite (runRealDetection_inference_failure _ _ _ _ _ _ Hm Himg Hpred).
Qed.

(** Witness for [runRealDetection_absorbs_everything]. *)
Lemma runRealDetection_absorbs_everything_witness :
  fromPixels offline_runtime "frame.jpg" = Throw "no image" /\
  fst (runRealDetection offline_runtime "frame.jpg" ready_service) = Ret [].
Proof.
  assert (Himg : fromPixels offline_runtime "frame.jpg" = Throw "no image") by reflexivity.
  split; [exact Himg|].
  exact (proj1 (proj2 (runRealDetection_absorbs_everything offline_runtime "frame.jpg"
                         ready_service)) "no image" Himg).
Defined.

(** ** Identifiers within one call *)

Lemma pretty_N_char_no_underscore x : pretty_N_char x <> underscore.
Proof. unfold pretty_N_char, underscore. by repeat case_match. Qed.

Lemma pretty_N_go_no_underscore x : forall s,
  no_underscore s -> no_underscore (pretty_N_go x s).
Proof.
  induction (N.lt_wf_0 x) as [x _ IH]; intros s Hs.
  assert (x = 0 \/ 0 < x)%N as [->|Hpos] by lia.
  - by rewrite pretty_N_go_0.
  - rewrite pretty_N_go_step by done. apply IH.
    + by apply N.div_lt.
    + split; [apply pretty_N_char_no_underscore|done].
Qed.

Lemma pretty_N_no_underscore (x : N) : no_underscore (pretty x).
Proof.
  unfold pretty, pretty_N. case_decide; [by split|].
  by apply pretty_N_go_no_underscore.
Qed.

Lemma pretty_Z_no_underscore (z : Z) : no_underscore (pretty z).
Proof.
  destruct z as [|p|p]; unfold pretty, pretty_Z.
  - by split.
  - apply pretty_N_no_underscore.
  - split; [done|]. apply pretty_N_no_underscore.
Qed.

(** Two strings cut at their first underscore. *)
Lemma first_underscore_cut a : forall a' b b',
  no_underscore a -> no_underscore a' ->
  a +:+ String underscore b = a' +:+ String underscore b' -> a = a' /\ b = b'.
Proof.
  induction a as [|c a IH]; intros [|c' a'] b b' Ha Ha' Heq; simpl in *.
  - by injection Heq as ->.
  - injection Heq as <- _. by destruct Ha'.
  - injection Heq as -> _. by destruct Ha.
  - injection Heq as -> Heq. destruct Ha as [_ Ha], Ha' as [_ Ha'].
    destruct (IH a' b b' Ha Ha' Heq) as [-> ->]. done.
Qed.

Lemma vehicle_id_inj now i now' i' :
  vehicle_id now i = vehicle_id now' i' -> now = now' /\ i = i'.
Proof.
  unfold vehicle_id. intros Heq. apply String.app_inj in Heq.
  change (pretty now +:+ String underscore (pretty i) =
          pretty now' +:+ String underscore (pretty i')) in Heq.
  apply first_underscore_cut in Heq as [Hn Hi]; try apply pretty_Z_no_underscore.
  split; [by apply (inj pretty)|by apply (inj pretty)].
Qed.

(** The ids the simulation loop gives: detection [k] carries the loop
    variable [i + k]. *)
Lemma simulate_loop_ids n : forall i acc s,
  exists out s',
    simulate_loop n i acc s = (Ret (acc ++ out), s') /\
    forall k d, out !! k = Some d -> exists now, id d = vehicle_id now (i + k).
Proof.
  induction n as [|n IH]; intros i acc s.
  - exists [], s. simpl. rewrite app_nil_r. split; [done|].
    intros k d Hk. by rewrite lookup_nil in Hk.
  - cbn [simulate_loop].
    unfold bind at 1, Math_random at 1.
    unfold bind at 1, Date_now at 1.
    do 5 (unfold bind at 1, Math_random at 1).
    match goal with
    | |- context [bind generateLicensePlate _ ?s1] =>
        destruct (generateLicensePlate_runs s1) as [plate Hplate];
        bind_with Hplate
    end.
    unfold bind at 1, Date_now at 1.
    match goal with
    | |- context [simulate_loop n (S i) (acc ++ [?d]) ?s1] =>
        destruct (IH (S i) (acc ++ [d]) s1) as (out & s' & Hrun & Hall);
        exists (d :: out), s'
    end.
    rewrite Hrun, <- app_assoc. split; [done|].
    intros [|k] d' Hk.
    + injection Hk as <-. simpl. rewrite Nat.add_0_r. eauto.
    + simpl in Hk. destruct (Hall k d' Hk) as [now Hnow]. exists now.
      by replace (i + S k) with (S i + k) by lia.
Qed.

Lemma ids_distinct_by_index (idx : list nat) (ds : list DetectedVehicle) :
  NoDup idx ->
  Forall2 (fun i d => exists now, id d = vehicle_id now i) idx ds ->
  NoDup (map id ds).
Proof.
  intros Hnd Hall. apply NoDup_alt. intros k1 k2 x H1 H2.
  rewrite list_lookup_fmap in H1, H2.
  destruct (ds !! k1) as [d1|] eqn:Hd1; [|done].
  destruct (ds !! k2) as [d2|] eqn:Hd2; [|done].
  simpl in H1, H2. injection H1 as H1. injection H2 as H2.
  destruct (Forall2_lookup_r _ _ _ _ _ Hall Hd1) as (i1 & Hi1 & now1 & Hid1).
  destruct (Forall2_lookup_r _ _ _ _ _ Hall Hd2) as (i2 & Hi2 & now2 & Hid2).
  assert (i1 = i2) as ->.
  { eapply vehicle_id_inj. rewrite <- Hid1, <- Hid2. congruence. }
  by eapply NoDup_lookup.
Qed.

(** X9.  Within one call, the ids the decoder gives are pairwise
    distinct, and so are the ids the simulation generator gives,
    whatever the clock reads between two detections. *)
Theorem ids_distinct_within_a_call :
  (forall predictions s,
     exists ds s',
       postProcessDetections predictions s = (Ret ds, s') /\ NoDup (map id ds)) /\
  (forall s,
     exists ds s',
       simulateDetection s = (Ret ds, s') /\ NoDup (map id ds)).
Proof.
  split.
  - intros predictions s.
    destruct (decide (length predictions < 4)) as [Hlt|Hge].
    { rewrite postProcessDetections_missing by done. eexists _, _. split; [done|].
      apply NoDup_nil_2. }
    destruct predictions as [|b [|c [|sc [|nd rest]]]]; simpl in Hge; try lia.
    rewrite postProcessDetections_four.
    destruct (decode_loop_spec b c sc (iterations (nd !! 0)) 0 [] s)
      as (out & s' & Hrun & _ & _ & Hall).
    exists out, s'. split; [done|].
    eapply ids_distinct_by_index; cycle 1.
    { eapply Forall2_impl; [exact Hall|]. by intros i d (_ & _ & _ & Hid). }
    apply NoDup_ListNoDup, List.NoDup_filter, NoDup_ListNoDup, NoDup_seq.
  - intros s. unfold simulateDetection.
    unfold bind at 1, Math_random at 1.
    destruct (Qltb _ _).
    { eexists _, _. split; [reflexivity|]. apply NoDup_nil_2. }
    unfold bind at 1, Math_random at 1.
    match goal with
    | |- context [simulate_loop ?n 0 [] ?s1] =>
        destruct (simulate_loop_ids n 0 [] s1) as (out & s' & Hrun & Hall)
    end.
    exists out, s'. split; [exact Hrun|].
    apply NoDup_alt. intros k1 k2 x H1 H2.
    rewrite list_lookup_fmap in H1, H2.
    destruct (out !! k1) as [d1|] eqn:Hd1; [|done].
    destruct (out !! k2) as [d2|] eqn:Hd2; [|done].
    simpl in H1, H2. injection H1 as H1. injection H2 as H2.
    destruct (Hall _ _ Hd1) as [now1 Hid1]. destruct (Hall _ _ Hd2) as [now2 Hid2].
    assert (0 + k1 = 0 + k2) as Heq.
    { eapply vehicle_id_inj. rewrite <- Hid1, <- Hid2. congruence. }
    lia.
Qed.

(** ** What the decoder keeps *)

(** X10.  Whatever the four tensors hold, the decoder returns one
    detection for every accepted entry among the first
    [numDetections[0]], in index order, and nothing else: each carries
    the raw score as its confidence, the category of its class label and
    the box of its row; there are at most [numDetections[0]] of them, and
    neither the store nor the console changes. *)
Theorem decoder_output_is_the_accepted_entries
    (boxes classes scores numDetections : Tensor) (s : State) :
  exists ds s',
    postProcessDetections [boxes; classes; scores; numDetections] s = (Ret ds, s') /\
    Forall2 (decoded_entry boxes classes scores)
            (List.filter (accepted classes scores)
                         (seq 0 (iterations (numDetections !! 0)))) ds /\
    length ds <= iterations (numDetections !! 0) /\
    same_store s s' /\
    console s' = console s.
Proof.
  rewrite postProcessDetections_four.
  destruct (decode_loop_spec boxes classes scores (iterations (numDetections !! 0)) 0 [] s)
    as (out & s' & Hrun & Hst & Hcon & Hall).
  exists out, s'. split; [done|]. split; [done|]. split; [|done].
  rewrite <- (Forall2_length _ _ _ Hall).
  etrans; [apply List.filter_length_le|]. by rewrite length_seq.
Qed.

(** The slot a class index names. *)
Lemma array_index_Some (q : Q) (n : nat) :
  array_index (Some q) = Some n <-> (q == inject_Z (Z.of_nat n))%Q.
Proof.
  unfold array_index. split.
  - destruct (Qeq_bool (inject_Z (Qfloor q)) q) eqn:Heq; [|done].
    destruct (0 <=? Qfloor q)%Z eqn:Hpos; [|done]. simpl.
    intros [= <-]. apply Qeq_bool_iff in Heq. apply Z.leb_le in Hpos.
    rewrite Z2Nat.id by done. by symmetry.
  - intros Hq.
    assert (Hfl : Qfloor q = Z.of_nat n) by (by rewrite Hq, Qfloor_Z).
    rewrite Hfl.
    assert (Qeq_bool (inject_Z (Z.of_nat n)) q = true) as ->
      by (apply Qeq_bool_iff; by symmetry).
    assert ((0 <=? Z.of_nat n)%Z = true) as -> by (apply Z.leb_le; lia).
    simpl. by rewrite Nat2Z.id.
Qed.

Lemma label_slots (n : nat) :
  VEHICLE_CLASS_MAP !! match COCO_CLASSES !! n with
                       | Some EmptyString => "unknown"
                       | Some label => label
                       | None => "unknown"
                       end
  = slot_category n.
Proof.
  do 90 (destruct n as [|n]; [vm_compute; reflexivity|]).
  rewrite (lookup_ge_None_2 COCO_CLASSES) by (simpl; lia).
  vm_compute. reflexivity.
Qed.

Lemma class_name_category (v : option Q) :
  VEHICLE_CLASS_MAP !! class_name v =
  match array_index v with
  | Some n => slot_category n
  | None => None
  end.
Proof.
  unfold class_name. destruct (array_index v) as [n|]; simpl.
  - apply label_slots.
  - vm_compute. reflexivity.
Qed.

(** X11.  An entry passes the filter of the decoder exactly when its
    score exceeds 0.3 and its class index is one of the integers 1, 2,
    3, 5, 7; these stand for bicycle, car, motorcycle, bus and truck.
    Every other class index (another label, a blank slot, a fraction, a
    negative number, a number beyond the table) is dropped. *)
Theorem accepted_classes (classes scores : Tensor) (i : nat) :
  (accepted classes scores i = true <->
   exists sc cls n,
     scores !! i = Some sc /\ (3 # 10 < sc)%Q /\
     classes !! i = Some cls /\ (cls == inject_Z (Z.of_nat n))%Q /\
     n ∈ [1; 2; 3; 5; 7]) /\
  (forall v, VEHICLE_CLASS_MAP !! class_name v =
             match array_index v with
             | Some n => slot_category n
             | None => None
             end).
Proof.
  split; [|apply class_name_category].
  unfold accepted. rewrite class_name_category. split.
  - destruct (scores !! i) as [sc|]; [|done].
    destruct (array_index (classes !! i)) as [n|] eqn:Hidx; [|done].
    destruct (classes !! i) as [cls|]; [|done].
    apply array_index_Some in Hidx.
    destruct (slot_category n) as [ty|] eqn:Hslot; [|done].
    intros Hgt. apply Qgtb_true in Hgt. exists sc, cls, n.
    repeat (split; [done|]).
    do 8 (destruct n as [|n]; [try done; set_solver|]). done.
  - intros (sc & cls & n & -> & Hgt & -> & Hq & Hn).
    apply array_index_Some in Hq. rewrite Hq.
    assert (is_Some (slot_category n)) as [ty ->].
    { repeat (apply elem_of_cons in Hn as [->|Hn]; [by eexists|]).
      by apply elem_of_nil in Hn. }
    by apply Qgtb_true.
Qed.

(** Witness for [accepted_classes]. *)
Lemma accepted_classes_witness :
  accepted [0; 2]%Q [1 # 2; 9 # 10]%Q 1 = true /\
  exists sc cls n,
    [1 # 2; 9 # 10]%Q !! 1 = Some sc /\ (3 # 10 < sc)%Q /\
    [0; 2]%Q !! 1 = Some cls /\ (cls == inject_Z (Z.of_nat n))%Q /\
    n ∈ [1; 2; 3; 5; 7].
Proof.
  assert (H : accepted [0; 2]%Q [1 # 2; 9 # 10]%Q 1 = true) by (vm_compute; reflexivity).
  split; [exact H|].
  exact (proj1 (proj1 (accepted_classes [0; 2]%Q [1 # 2; 9 # 10]%Q 1)) H).
Defined.

(** ** License plates *)

Lemma substring_one (s : string) : forall n,
  n < String.length s ->
  exists c, String.substring n 1 s = String c EmptyString /\ String.get n s = Some c.
Proof.
  induction s as [|c s IH]; intros n Hn; simpl in Hn; [lia|].
  destruct n as [|n].
  - exists c. simpl. by destruct s.
  - simpl. apply IH. lia.
Qed.

Lemma charAt_in_range (s : string) (z : Z) :
  (0 <= z < Z.of_nat (String.length s))%Z ->
  exists c, charAt s z = String c EmptyString /\ String.get (Z.to_nat z) s = Some c.
Proof.
  intros Hz. unfold charAt.
  assert ((z <? 0)%Z = false) as -> by (apply Z.ltb_ge; lia).
  apply substring_one. lia.
Qed.

Lemma append_char (p : string) c rest :
  (p +:+ String c EmptyString) +:+ rest = p +:+ String c rest.
Proof.
  induction p as [|c' p IH]; [done|].
  change (String c' ((p +:+ String c EmptyString) +:+ rest) = String c' (p +:+ String c rest)).
  by f_equal.
Qed.

(** [n] characters are appended, each taken from the alphabet, and [n]
    draws are consumed. *)
Lemma pick_chars_shape (alphabet : string) (P : Ascii.ascii -> bool) :
  0 < String.length alphabet ->
  (forall n c, String.get n alphabet = Some c -> P c = true) ->
  forall n plate s,
    unit_draws (entropy s) ->
    exists cs,
      pick_chars alphabet n plate s =
        (Ret (plate +:+ String.string_of_list_ascii cs), set_draws (n + draws s) s) /\
      length cs = n /\ forallb P cs = true.
Proof.
  intros Hlen HP. induction n as [|n IH]; intros plate s Hunit.
  - exists []. simpl. unfold ret. split; [|done]. f_equal; [|by destruct s].
    f_equal. induction plate as [|c p IHp]; [done|].
    change (String c p = String c (p +:+ EmptyString)). by f_equal.
  - cbn [pick_chars]. unfold bind at 1, Math_random at 1.
    destruct (Hunit (draws s)) as [H0 H1].
    destruct (charAt_in_range alphabet
                (Qfloor (entropy s (draws s) * inject_Z (Z.of_nat (String.length alphabet)))))
      as (c & Hc & Hget).
    { apply floor_scaled_range; [lia|done..]. }
    rewrite Hc.
    destruct (IH (plate +:+ String c EmptyString) (set_draws (S (draws s)) s))
      as (cs & Hrun & Hcs & Hall); [by destruct s|].
    exists (c :: cs). rewrite Hrun, set_draws_twice, append_char.
    split; [|split].
    + simpl. do 2 f_equal. destruct s; simpl. lia.
    + simpl. by rewrite Hcs.
    + simpl. by rewrite (HP _ _ Hget), Hall.
Qed.

Lemma letters_are_upper n c :
  String.get n "ABCDEFGHIJKLMNOPQRSTUVWXYZ" = Some c -> is_upper c = true.
Proof.
  do 26 (destruct n as [|n]; [by intros [= <-]|]). done.
Qed.

Lemma numbers_are_digits n c :
  String.get n "0123456789" = Some c -> is_digit c = true.
Proof.
  do 10 (destruct n as [|n]; [by intros [= <-]|]). done.
Qed.

Lemma generateLicensePlate_shape s :
  unit_draws (entropy s) ->
  exists plate,
    generateLicensePlate s = (Ret plate, set_draws (7 + draws s) s) /\
    plate_shape plate = true.
Proof.
  intros Hunit. unfold generateLicensePlate.
  destruct (pick_chars_shape "ABCDEFGHIJKLMNOPQRSTUVWXYZ" is_upper
              ltac:(simpl; lia) letters_are_upper 3 EmptyString s Hunit)
    as (cs1 & Hrun1 & Hlen1 & Hup).
  bind_with Hrun1.
  destruct (pick_chars_shape "0123456789" is_digit
              ltac:(simpl; lia) numbers_are_digits 4
              (EmptyString +:+ String.string_of_list_ascii cs1)
              (set_draws (3 + draws s) s))
    as (cs2 & Hrun2 & Hlen2 & Hdig); [by destruct s|].
  rewrite Hrun2, set_draws_twice.
  eexists. split; [do 2 f_equal; destruct s; simpl; lia|].
  destruct cs1 as [|a [|b [|c [|? ?]]]]; try done.
  destruct cs2 as [|d [|e [|f [|g [|? ?]]]]]; try done.
  simpl in Hup, Hdig. unfold plate_shape. simpl.
  apply andb_prop in Hup as [Ha Hup]. apply andb_prop in Hup as [Hb Hup].
  apply andb_prop in Hup as [Hc _].
  apply andb_prop in Hdig as [Hd Hdig]. apply andb_prop in Hdig as [He Hdig].
  apply andb_prop in Hdig as [Hf Hdig]. apply andb_prop in Hdig as [Hg _].
  by rewrite Ha, Hb, Hc, Hd, He, Hf, Hg.
Qed.

Lemma decode_loop_plates boxes classes scores n : forall i acc s,
  unit_draws (entropy s) ->
  exists out s',
    decode_loop boxes classes scores n i acc s = (Ret (acc ++ out), s') /\
    Forall has_plate out.
Proof.
  induction n as [|n IH]; intros i acc s Hunit.
  - exists [], s. simpl. by rewrite app_nil_r.
  - cbn [decode_loop].
    destruct (scores !! i) as [sc|]; [|by apply IH].
    destruct (VEHICLE_CLASS_MAP !! class_name (classes !! i)) as [ty|]; [|by apply IH].
    destruct (Qgtb sc confidenceThreshold); [|by apply IH].
    unfold bind at 1, Date_now at 1.
    destruct (generateLicensePlate_shape (set_ticks (S (ticks s)) s))
      as (plate & Hplate & Hshape); [by destruct s|].
    bind_with Hplate.
    unfold bind at 1, Date_now at 1.
    match goal with
    | |- context [decode_loop _ _ _ n (S i) (acc ++ [?d]) ?s1] =>
        destruct (IH (S i) (acc ++ [d]) s1) as (out & s' & Hrun & Hall);
        [by destruct s|exists (d :: out), s']
    end.
    rewrite Hrun, <- app_assoc. split; [done|].
    constructor; [|done]. by exists plate.
Qed.

Lemma simulate_loop_plates n : forall i acc s,
  unit_draws (entropy s) ->
  exists out s',
    simulate_loop n i acc s = (Ret (acc ++ out), s') /\
    Forall has_plate out.
Proof.
  induction n as [|n IH]; intros i acc s Hunit.
  - exists [], s. simpl. by rewrite app_nil_r.
  - cbn [simulate_loop].
    unfold bind at 1, Math_random at 1.
    unfold bind at 1, Date_now at 1.
    do 5 (unfold bind at 1, Math_random at 1).
    match goal with
    | |- context [bind generateLicensePlate _ ?s1] =>
        destruct (generateLicensePlate_shape s1) as (plate & Hplate & Hshape);
        [by destruct s|bind_with Hplate]
    end.
    unfold bind at 1, Date_now at 1.
    match goal with
    | |- context [simulate_loop n (S i) (acc ++ [?d]) ?s1] =>
        destruct (IH (S i) (acc ++ [d]) s1) as (out & s' & Hrun & Hall);
        [by destruct s|exists (d :: out), s']
    end.
    rewrite Hrun, <- app_assoc. split; [done|].
    constructor; [|done]. by exists plate.
Qed.

(** X12.  With draws in [0, 1), [generateLicensePlate] consumes seven
    draws and returns three capital letters followed by four digits, and
    every detection the decoder or the simulation generator returns
    carries a plate of that shape. *)
Theorem plates_are_three_letters_four_digits (s : State) :
  unit_draws (entropy s) ->
  (exists plate,
     generateLicensePlate s = (Ret plate, set_draws (7 + draws s) s) /\
     plate_shape plate = true) /\
  (forall predictions,
     exists ds s',
       postProcessDetections predictions s = (Ret ds, s') /\ Forall has_plate ds) /\
  (exists ds s',
     simulateDetection s = (Ret ds, s') /\ Forall has_plate ds).
Proof.
  intros Hunit. split; [by apply generateLicensePlate_shape|]. split.
  - intros predictions.
    destruct (decide (length predictions < 4)) as [Hlt|Hge].
    { rewrite postProcessDetections_missing by done. by eexists _, _. }
    destruct predictions as [|b [|c [|sc [|nd rest]]]]; simpl in Hge; try lia.
    rewrite postProcessDetections_four.
    destruct (decode_loop_plates b c sc (iterations (nd !! 0)) 0 [] s Hunit)
      as (out & s' & Hrun & Hall).
    by exists out, s'.
  - unfold simulateDetection. unfold bind at 1, Math_random at 1.
    destruct (Qltb _ _); [by eexists _, _|].
    unfold bind at 1, Math_random at 1.
    match goal with
    | |- context [simulate_loop ?n 0 [] ?s1] =>
        destruct (simulate_loop_plates n 0 [] s1) as (out & s' & Hrun & Hall);
        [by destruct s|]
    end.
    by exists out, s'.
Qed.

(** Witness for [plates_are_three_letters_four_digits]. *)
Lemma plates_are_three_letters_four_digits_witness :
  unit_draws (entropy same_millisecond_service) /\
  exists plate,
    generateLicensePlate same_millisecond_service =
      (Ret plate, set_draws (7 + draws same_millisecond_service) same_millisecond_service) /\
    plate_shape plate = true.
Proof.
  assert (Hunit : unit_draws (entropy same_millisecond_service)).
  { intros [|[|n]]; simpl; lra. }
  split; [exact Hunit|].
  exact (proj1 (plates_are_three_letters_four_digits same_millisecond_service Hunit)).
Defined.

(** ** Arrays handed out earlier *)

(** The heap [record_batch] leaves: the heap with the new objects, the
    count object replaced and the history array replaced. *)
Lemma record_batch_heap ds c a s :
  heap s !! vehicleCount s = Some (OCount c) ->
  heap s !! detectedVehicles s = Some (OArray a) ->
  exists l ls h1,
    heap s ⊆ h1 /\
    record_batch ds s =
      (Ret l, set_heap (<[detectedVehicles s := OArray (a ++ ls)]>
                          (<[vehicleCount s := OCount (tally ds c)]> h1)) s).
Proof.
  intros Hc Ha. unfold record_batch.
  destruct (new_array_spec ds s) as (l & ls & h1 & Hrun & Hsub & Hfresh & Hl & Hls).
  bind_with Hrun.
  assert (Hvc_l : vehicleCount s <> l) by congruence.
  assert (Hvc_dv : vehicleCount s <> detectedVehicles s) by congruence.
  assert (Hc1 := lookup_weaken _ _ _ _ Hc Hsub).
  assert (Ha1 := lookup_weaken _ _ _ _ Ha Hsub).
  erewrite bind_ret; cycle 1.
  { eapply updateVehicleCounts_spec; destruct s; simpl in *; eauto. }
  rewrite set_heap_twice.
  erewrite bind_ret; cycle 1.
  { eapply (push_all_spec l ls a); destruct s; simpl in *.
    - rewrite lookup_insert_ne by done. exact Hl.
    - rewrite lookup_insert_ne by done. exact Ha1. }
  rewrite set_heap_twice. unfold ret.
  exists l, ls, h1. split; [done|]. by destruct s.
Qed.

(** An array whose slots hold detections reads the same after the count
    object and the history array have been replaced in a larger heap. *)
Lemma read_array_frame (h h1 : gmap loc obj) vc dv c a oc oa l items ds :
  h ⊆ h1 ->
  h !! vc = Some (OCount c) ->
  h !! dv = Some (OArray a) ->
  l <> dv ->
  h !! l = Some (OArray items) ->
  vehicles_at h items = Some ds ->
  <[dv := OArray oa]> (<[vc := OCount oc]> h1) !! l = Some (OArray items) /\
  vehicles_at (<[dv := OArray oa]> (<[vc := OCount oc]> h1)) items = Some ds.
Proof.
  intros Hsub Hc Ha Hdv Hl Hds.
  assert (Hvc : l <> vc) by congruence.
  split.
  - rewrite !lookup_insert_ne by done. by eapply lookup_weaken.
  - apply vehicles_at_Some. apply vehicles_at_Some in Hds.
    eapply Forall2_impl; [exact Hds|]. intros l' d Hl'. simpl in Hl'.
    pose proof (lookup_weaken _ _ _ _ Hl' Hsub) as Hl1.
    rewrite !lookup_insert_ne by congruence. done.
Qed.

(** X13.  An array handed out earlier is a copy, not a view: what a
    caller reads in it is the same after a later detection cycle and
    after a reset.  Only the store's own array changes. *)
Theorem earlier_arrays_keep_their_content
    (s : State) (l : loc) (ds : list DetectedVehicle) :
  well_typed s ->
  l <> detectedVehicles s ->
  read_array s l = Some ds ->
  (forall tf imageUri, read_array (snd (detectVehicles tf imageUri s)) l = Some ds) /\
  read_array (snd (resetCounts s)) l = Some ds.
Proof.
  intros Hs Hne Hread. unfold read_array in Hread.
  destruct (heap s !! l) as [[?|items|?]|] eqn:Hl; try done.
  split.
  - intros tf imageUri.
    destruct (detectVehicles_effect tf imageUri s Hs)
      as (batch & s1 & l' & s' & Hst & Hrec & ->). simpl.
    pose proof (well_typed_same_store _ _ Hst Hs) as [(c & Hc) (a & old & Ha & _)].
    destruct Hst as (_ & Hdv & _ & Hvc & Hh & _).
    destruct (record_batch_heap batch c a s1 Hc Ha) as (l2 & ls & h1 & Hsub & Hrec').
    rewrite Hrec in Hrec'. injection Hrec' as -> ->.
    rewrite Hh in *. rewrite Hdv in *. rewrite Hvc in *.
    destruct (read_array_frame (heap s) h1 (vehicleCount s) (detectedVehicles s)
                c a (tally batch c) (a ++ ls) l items ds) as [Hl' Hds']; try done.
    unfold read_array. destruct s1; simpl in *. by rewrite Hl', Hds'.
  - destruct Hs as [(c & Hc) (a & old & Ha & _)].
    destruct (resetCounts_spec c s Hc) as (l0 & Hl0 & Hne0 & ->). simpl.
    assert (Hvc : l <> vehicleCount s) by congruence.
    assert (Hl0' : l <> l0) by congruence.
    unfold read_array. destruct s; simpl in *.
    rewrite !lookup_insert_ne by done. rewrite Hl.
    apply vehicles_at_Some. apply vehicles_at_Some in Hread.
    eapply Forall2_impl; [exact Hread|]. intros l' d Hl'. simpl in Hl'.
    rewrite !lookup_insert_ne by congruence. done.
Qed.

(** Witness for [earlier_arrays_keep_their_content]. *)
Lemma earlier_arrays_keep_their_content_witness :
  well_typed history_fetched /\
  5%positive <> detectedVehicles history_fetched /\
  (exists ds, read_array history_fetched 5%positive = Some ds /\ length ds = 1 /\
     read_array (snd (resetCounts history_fetched)) 5%positive = Some ds).
Proof.
  assert (Hs : well_typed history_fetched).
  { split.
    - eexists. vm_compute. reflexivity.
    - eexists _, _. split; vm_compute; reflexivity. }
  assert (Hne : 5%positive <> detectedVehicles history_fetched) by (vm_compute; discriminate).
  split; [exact Hs|]. split; [exact Hne|].
  eexists. split; [vm_compute; reflexivity|]. split; [reflexivity|].
  refine (proj2 (earlier_arrays_keep_their_content history_fetched 5%positive _ Hs Hne _)).
  vm_compute. reflexivity.
Defined.

(** ** The statistics view *)

Lemma insert_desc_elem e l x : x ∈ insert_desc e l <-> x = e \/ x ∈ l.
Proof.
  induction l as [|e' l IH]; simpl.
  - rewrite list_elem_of_singleton, elem_of_nil. tauto.
  - destruct (snd e' <=? snd e)%N.
    + by rewrite elem_of_cons.
    + rewrite !elem_of_cons, IH. tauto.
Qed.

Lemma sort_desc_elem l x : x ∈ sort_desc l <-> x ∈ l.
Proof.
  induction l as [|e l IH]; simpl; [done|].
  rewrite insert_desc_elem, elem_of_cons, IH. tauto.
Qed.

Lemma insert_desc_head e l : head_largest l -> head_largest (insert_desc e l).
Proof.
  destruct l as [|e' l]; simpl.
  - intros _ x Hx. apply list_elem_of_singleton in Hx as ->. lia.
  - intros Hmax. destruct (snd e' <=? snd e)%N eqn:Hle.
    + apply N.leb_le in Hle. intros x Hx.
      apply elem_of_cons in Hx as [->|Hx]; [lia|].
      specialize (Hmax x Hx). lia.
    + apply N.leb_gt in Hle. intros x Hx.
      apply elem_of_cons in Hx as [->|Hx]; [lia|].
      apply insert_desc_elem in Hx as [->|Hx]; [lia|].
      apply Hmax. by right.
Qed.

Lemma sort_desc_head l : head_largest (sort_desc l).
Proof.
  induction l as [|e l IH]; simpl; [done|]. by apply insert_desc_head.
Qed.

Lemma toUpperCase_names t :
  toUpperCase (VehicleType_value t) <> EmptyString.
Proof. by destruct t. Qed.

(** X14.  The text after "Most Common Vehicle" is the upper-case name of
    one of the six categories other than unknown, never "N/A", and no
    other of the six has a larger count. *)
Theorem mostCommonVehicle_has_largest_count (c : VehicleCount) :
  exists t,
    t ∈ vehicleTypes /\
    mostCommonVehicle c = toUpperCase (VehicleType_value t) /\
    forall t', t' ∈ vehicleTypes ->
      (get_count (KType t') c <= get_count (KType t) c)%N.
Proof.
  unfold mostCommonVehicle.
  set (six := filter (fun e => fst e <> "total" /\ fst e <> "unknown") (entries c)).
  assert (Hsix : six = map (fun t => (VehicleType_value t, get_count (KType t) c)) vehicleTypes)
    by reflexivity.
  pose proof (sort_desc_head six) as Hmax.
  pose proof (sort_desc_elem six) as Helem.
  destruct (sort_desc six) as [|e rest].
  { assert (Hin : ("car", get_count (KType CAR) c) ∈ @nil (string * N)).
    { apply Helem. rewrite Hsix. by left. }
    by apply elem_of_nil in Hin. }
  assert (He : e ∈ six) by (apply Helem; by left).
  rewrite Hsix in He. apply list_elem_of_fmap in He as (t & -> & Ht).
  exists t. split; [done|]. split.
  - simpl. pose proof (toUpperCase_names t).
    by destruct (toUpperCase (VehicleType_value t)).
  - intros t' Ht'.
    apply (Hmax (VehicleType_value t', get_count (KType t') c)).
    apply Helem. rewrite Hsix. apply list_elem_of_fmap. by exists t'.
Qed.

(** ** Confidence as a percentage *)

Lemma Math_round_lower (q : Q) (z : Z) : (inject_Z z <= q)%Q -> (z <= Math_round q)%Z.
Proof.
  intros Hq. unfold Math_round.
  rewrite <- (Qfloor_Z z). apply Qfloor_resp_le. lra.
Qed.

Lemma Math_round_upper (q : Q) (z : Z) : (q < inject_Z z)%Q -> (Math_round q <= z)%Z.
Proof.
  intros Hq. unfold Math_round.
  assert (Hlt : (Qfloor (q + (1 # 2)) < z + 1)%Z).
  { rewrite Zlt_Qlt. eapply Qle_lt_trans; [apply Qfloor_le|].
    rewrite inject_Z_plus. change (inject_Z 1) with 1%Q. lra. }
  lia.
Qed.

Lemma decoded_confidence_above_threshold predictions s :
  exists ds s',
    postProcessDetections predictions s = (Ret ds, s') /\
    Forall (fun d => (3 # 10 < confidence d)%Q) ds.
Proof.
  destruct (decide (length predictions < 4)) as [Hlt|Hge].
  { rewrite postProcessDetections_missing by done. by eexists _, _. }
  destruct predictions as [|b [|c [|sc [|nd rest]]]]; simpl in Hge; try lia.
  rewrite postProcessDetections_four.
  destruct (decode_loop_spec b c sc (iterations (nd !! 0)) 0 [] s)
    as (out & s' & Hrun & _ & _ & Hall).
  exists out, s'. split; [done|].
  apply Forall_forall. intros d Hd.
  apply list_elem_of_lookup in Hd as [n Hn].
  destruct (Forall2_lookup_r _ _ _ _ _ Hall Hn) as (i & Hi & Hconf & _).
  apply list_elem_of_lookup_2, list_elem_of_In, filter_In in Hi as [_ Hacc].
  apply accepted_inv in Hacc as (sc' & ty & Hsc & _ & Hgt).
  rewrite Hconf in Hsc. injection Hsc as <-. by apply Qgtb_true in Hgt.
Qed.

Lemma simulated_confidence_range s :
  unit_draws (entropy s) ->
  exists ds s',
    simulateDetection s = (Ret ds, s') /\
    Forall (fun d => (7 # 10 <= confidence d)%Q /\ (confidence d < 1)%Q) ds.
Proof.
  intros Hunit. unfold simulateDetection.
  unfold bind at 1, Math_random at 1.
  destruct (Qltb _ _); [by eexists _, _|].
  unfold bind at 1, Math_random at 1.
  match goal with
  | |- context [simulate_loop ?n 0 [] ?s1] =>
      destruct (simulate_loop_spec n 0 [] s1) as (out & s' & Hrun & _ & _ & _ & Hall);
      assert (He : entropy s1 = entropy s) by (by destruct s)
  end.
  exists out, s'. split; [exact Hrun|].
  apply Forall_forall. intros d Hd.
  apply list_elem_of_lookup in Hd as [k Hk].
  apply Hall in Hk; [|by rewrite He]. rewrite He in Hk.
  destruct (simulated_entry_bounds _ _ _ _ Hunit Hk) as [_ (? & ? & ? & ? & _ & Hc & _)].
  exact Hc.
Qed.

(** X15.  The percentage shown for a detection,
    [Math.round(confidence * 100)], is at least 30 for every detection
    the decoder returns, and between 70 and 100 for every detection the
    simulation generator returns. *)
Theorem displayed_confidence_range :
  (forall predictions s,
     exists ds s',
       postProcessDetections predictions s = (Ret ds, s') /\
       Forall (fun d => (30 <= confidence_percent d)%Z) ds) /\
  (forall s,
     unit_draws (entropy s) ->
     exists ds s',
       simulateDetection s = (Ret ds, s') /\
       Forall (fun d => (70 <= confidence_percent d <= 100)%Z) ds).
Proof.
  split.
  - intros predictions s.
    destruct (decoded_confidence_above_threshold predictions s) as (ds & s' & Hrun & Hall).
    exists ds, s'. split; [done|].
    eapply Forall_impl; [exact Hall|]. intros d Hd. simpl in Hd.
    apply Math_round_lower. change (inject_Z 30) with 30%Q. lra.
  - intros s Hunit.
    destruct (simulated_confidence_range s Hunit) as (ds & s' & Hrun & Hall).
    exists ds, s'. split; [done|].
    eapply Forall_impl; [exact Hall|]. intros d [Hlo Hhi]. split.
    + apply Math_round_lower. change (inject_Z 70) with 70%Q. lra.
    + apply Math_round_upper. change (inject_Z 100) with 100%Q. lra.
Qed.

(** Witness for [displayed_confidence_range]. *)
Lemma displayed_confidence_range_witness :
  unit_draws (entropy same_millisecond_service) /\
  exists ds s',
    simulateDetection same_millisecond_service = (Ret ds, s') /\
    Forall (fun d => (70 <= confidence_percent d <= 100)%Z) ds.
Proof.
  assert (Hunit : unit_draws (entropy same_millisecond_service)).
  { intros [|[|n]]; simpl; lra. }
  split; [exact Hunit|].
  exact (proj2 displayed_confidence_range same_millisecond_service Hunit).
Defined.

(** ** Recent detections *)

Lemma slice_last_suffix {A} (n : nat) (l : list A) :
  l = take (length l - n) l ++ slice_last n l /\
  length (slice_last n l) = Nat.min n (length l).
Proof.
  unfold slice_last. split; [by rewrite take_drop|].
  rewrite length_drop. lia.
Qed.

(** X16.  After any sequence of calls on a new service, the list the
    statistics view keeps as recent detections is the end of the
    history: the last ten recorded detections in their order, or the
    whole history when it has fewer than ten. *)
Theorem recentDetections_is_the_end_of_history
    (clk : nat -> Z) (rnd : nat -> Q) (calls : list Call) :
  exists h older recent,
    history (session calls (new_service clk rnd)) = Some h /\
    recentDetections (session calls (new_service clk rnd)) = Some recent /\
    h = older ++ recent /\
    length recent = Nat.min 10 (length h).
Proof.
  destruct (session_accounted calls _ (accounted_new_service clk rnd))
    as (c & a & ds & _ & Ha & Hds & _).
  exists ds, (take (length ds - 10) ds), (slice_last 10 ds).
  unfold recentDetections. rewrite (history_reads a _ Ha), Hds.
  split; [done|]. split; [done|]. apply slice_last_suffix.
Qed.
